(** * lua-bundler: the dependency scanner of [internal/bundler/processor.go]

  A shallow embedding of [downloadHTTP], [isLocalModule],
  [resolveModulePath] and [processFile], together with the parts of Go's
  [strings], [regexp] and [path/filepath] packages they call, and the
  properties of the bundler's natural-language specification stated
  over it; then [NewBundler], [Bundle] and the root command that drive
  them, with further properties of the code. *)

From Stdlib Require Import Ascii String NArith List Lia.
From stdpp Require Import base option list gmap strings pretty.

Local Open Scope string_scope.

(* ===================================================================== *)
(** ** Go's [strings] package, on byte strings *)
(* ===================================================================== *)

Module strings.

(** [strings.HasPrefix] *)
Definition HasPrefix (s p : string) : bool := String.prefix p s.

(** [strings.TrimPrefix] *)
Fixpoint drop_bytes (n : nat) (s : string) : string :=
  match n, s with
  | S n', String _ s' => drop_bytes n' s'
  | _, _ => s
  end.

Definition TrimPrefix (s p : string) : string :=
  if HasPrefix s p then drop_bytes (String.length p) s else s.

(** [strings.HasSuffix]: some tail of [s] is [suf]. *)
Fixpoint HasSuffix (s suf : string) : bool :=
  String.eqb s suf ||
  match s with
  | String _ s' => HasSuffix s' suf
  | EmptyString => false
  end.

(** [strings.Contains] *)
Fixpoint Contains (s sub : string) : bool :=
  String.prefix sub s ||
  match s with
  | String _ s' => Contains s' sub
  | EmptyString => false
  end.

(** [strings.Split] for a one-byte separator, the only kind the bundler
    passes ("\n" and "."). The result is never empty. *)
Fixpoint Split (s : string) (sep : ascii) : list string :=
  match s with
  | EmptyString => [EmptyString]
  | String c s' =>
      if Ascii.eqb c sep then EmptyString :: Split s' sep
      else match Split s' sep with
           | piece :: rest => String c piece :: rest
           | [] => [String c EmptyString]
           end
  end.

(** [strings.ReplaceAll] of one byte by one byte. *)
Fixpoint ReplaceAll (s : string) (old new : ascii) : string :=
  match s with
  | EmptyString => EmptyString
  | String c s' =>
      String (if Ascii.eqb c old then new else c) (ReplaceAll s' old new)
  end.

Fixpoint in_cutset (c : ascii) (cutset : string) : bool :=
  match cutset with
  | EmptyString => false
  | String d cutset' => Ascii.eqb c d || in_cutset c cutset'
  end.

Fixpoint TrimLeft (s cutset : string) : string :=
  match s with
  | String c s' => if in_cutset c cutset then TrimLeft s' cutset else s
  | EmptyString => EmptyString
  end.

Fixpoint TrimRight (s cutset : string) : string :=
  match s with
  | EmptyString => EmptyString
  | String c s' =>
      match TrimRight s' cutset with
      | EmptyString =>
          if in_cutset c cutset then EmptyString else String c EmptyString
      | t => String c t
      end
  end.

(** [strings.Trim] *)
Definition Trim (s cutset : string) : string :=
  TrimRight (TrimLeft s cutset) cutset.

(** [strings.Join] *)
Fixpoint Join (elems : list string) (sep : string) : string :=
  match elems with
  | [] => EmptyString
  | [e] => e
  | e :: rest => e ++ sep ++ Join rest sep
  end.

End strings.

(* ===================================================================== *)
(** ** Go's [path/filepath], Unix flavour (separator "/") *)
(* ===================================================================== *)

Module filepath.

Definition sep : ascii := "/"%char.

(** The element stack of [Clean]: "." and empty elements vanish, ".."
    pops the last ordinary element, is dropped at the root of a rooted
    path and is kept at the front of a relative one. The stack is kept
    in reverse. *)
Fixpoint clean_elems (rooted : bool) (elems out : list string) : list string :=
  match elems with
  | [] => out
  | e :: elems' =>
      if String.eqb e EmptyString || String.eqb e "." then clean_elems rooted elems' out
      else if String.eqb e ".." then
        match out with
        | top :: out' =>
            if String.eqb top ".." then clean_elems rooted elems' (e :: out)
            else clean_elems rooted elems' out'
        | [] =>
            if rooted then clean_elems rooted elems' []
            else clean_elems rooted elems' [e]
        end
      else clean_elems rooted elems' (e :: out)
  end.

(** [filepath.Clean] *)
Definition Clean (path : string) : string :=
  if String.eqb path EmptyString then "."
  else
    let rooted := strings.HasPrefix path "/" in
    let out := rev (clean_elems rooted (strings.Split path sep) []) in
    let body := strings.Join out "/" in
    if rooted then "/" ++ body
    else if String.eqb body EmptyString then "." else body.

(** [filepath.Join]: the elements from the first non-empty one on are
    joined with "/" and cleaned; all empty gives the empty string. *)
Fixpoint Join (elem : list string) : string :=
  match elem with
  | [] => EmptyString
  | e :: rest =>
      if String.eqb e EmptyString then Join rest
      else Clean (strings.Join elem "/")
  end.

(** The bytes of [path] up to and including its last separator. *)
Fixpoint upto_last_sep (path : string) : string :=
  match path with
  | EmptyString => EmptyString
  | String c path' =>
      if strings.Contains path "/" then String c (upto_last_sep path')
      else EmptyString
  end.

(** [filepath.Dir] *)
Definition Dir (path : string) : string := Clean (upto_last_sep path).

End filepath.

(* ===================================================================== *)
(** ** Go's [regexp], the fragment the three patterns use *)
(* ===================================================================== *)

Module regexp.

(** Patterns are matched byte by byte. Go matches rune by rune, which
    gives the same matches and groups here: every literal and every
    positive class of the three patterns is ASCII, and a negated class
    takes all the bytes of a non-ASCII rune. Repetition is only ever
    applied to a character class in the bundler's patterns, so [Star] and
    [Plus] take a class. *)
Inductive Regexp : Type :=
| Lit (l : string)
| Cls (p : ascii -> bool)
| Star (p : ascii -> bool)
| Plus (p : ascii -> bool)
| Seq (r1 r2 : Regexp)
| Alt (r1 r2 : Regexp)
| Group (i : nat) (r : Regexp).

Definition captures : Type := nat -> string.
Definition no_captures : captures := fun _ => EmptyString.
Definition set_capture (i : nat) (v : string) (cs : captures) : captures :=
  fun j => if Nat.eqb i j then v else cs j.

Fixpoint strip_prefix (l s : string) : option string :=
  match l, s with
  | EmptyString, _ => Some s
  | String a l', String b s' => if Ascii.eqb a b then strip_prefix l' s' else None
  | String _ _, EmptyString => None
  end.

(** What was consumed between [s] and its tail [s']. *)
Fixpoint take_bytes (n : nat) (s : string) : string :=
  match n, s with
  | S n', String c s' => String c (take_bytes n' s')
  | _, _ => EmptyString
  end.

Definition consumed (s s' : string) : string :=
  take_bytes (String.length s - String.length s') s.

Section matcher.
Context {A : Type}.

(** Greedy repetition: the longest run first, then shorter ones. *)
Fixpoint star (p : ascii -> bool) (s : string) (k : string -> option A) : option A :=
  match s with
  | String c s' =>
      if p c then
        match star p s' k with
        | Some r => Some r
        | None => k s
        end
      else k s
  | EmptyString => k s
  end.

(** Backtracking match of [r] at the head of [s]; [k] receives the
    rest of the input. The first success in priority order (greedy
    repetition, left alternative first) is the one Go reports. *)
Fixpoint run (r : Regexp) (s : string) (cs : captures)
    (k : string -> captures -> option A) : option A :=
  match r with
  | Lit l =>
      match strip_prefix l s with
      | Some s' => k s' cs
      | None => None
      end
  | Cls p =>
      match s with
      | String c s' => if p c then k s' cs else None
      | EmptyString => None
      end
  | Star p => star p s (fun s' => k s' cs)
  | Plus p =>
      match s with
      | String c s' => if p c then star p s' (fun s' => k s' cs) else None
      | EmptyString => None
      end
  | Seq r1 r2 => run r1 s cs (fun s' cs' => run r2 s' cs' k)
  | Alt r1 r2 =>
      match run r1 s cs k with
      | Some res => Some res
      | None => run r2 s cs k
      end
  | Group i r1 =>
      run r1 s cs (fun s' cs' => k s' (set_capture i (consumed s s') cs'))
  end.
End matcher.

Definition match_here (r : Regexp) (s : string) : option captures :=
  run (Group 0 r) s no_captures (fun _ cs => Some cs).

(** The leftmost position at which the pattern matches. *)
Fixpoint search (r : Regexp) (s : string) : option captures :=
  match match_here r s with
  | Some cs => Some cs
  | None =>
      match s with
      | String _ s' => search r s'
      | EmptyString => None
      end
  end.

Fixpoint NumSubexp (r : Regexp) : nat :=
  match r with
  | Lit _ | Cls _ | Star _ | Plus _ => 0
  | Seq r1 r2 | Alt r1 r2 => NumSubexp r1 + NumSubexp r2
  | Group _ r1 => S (NumSubexp r1)
  end.

(** [Regexp.MatchString] *)
Definition MatchString (r : Regexp) (s : string) : bool :=
  match search r s with Some _ => true | None => false end.

(** [Regexp.FindStringSubmatch]: nil without a match, otherwise the
    whole match followed by one entry per group (the empty string for
    a group that took no part). *)
Definition FindStringSubmatch (r : Regexp) (s : string) : list string :=
  match search r s with
  | Some cs => map cs (seq 0 (S (NumSubexp r)))
  | None => []
  end.

(** Character classes. *)
Definition byte_in (lo hi : N) (c : ascii) : bool :=
  let n := N_of_ascii c in (N.leb lo n && N.leb n hi)%bool.
Definition byte_is (d : ascii) (c : ascii) : bool := Ascii.eqb c d.

Definition digit : ascii -> bool := byte_in 48 57.
Definition upper : ascii -> bool := byte_in 65 90.
Definition lower : ascii -> bool := byte_in 97 122.
Definition letter (c : ascii) : bool := upper c || lower c.
(** [\s] is [\t\n\f\r ] *)
Definition space (c : ascii) : bool :=
  let n := N_of_ascii c in
  (N.eqb n 9 || N.eqb n 10 || N.eqb n 12 || N.eqb n 13 || N.eqb n 32)%bool.
(** [\w] is [0-9A-Za-z_] *)
Definition word (c : ascii) : bool := digit c || letter c || byte_is "_" c.
(** The double quote, byte 34. *)
Definition dquote : ascii := ascii_of_N 34.
(** A single or double quote, and its complement. *)
Definition quote (c : ascii) : bool := byte_is "'" c || byte_is dquote c.
Definition not_quote (c : ascii) : bool := negb (quote c).
(** [^)] *)
Definition not_rparen (c : ascii) : bool := negb (byte_is ")" c).
(** [a-zA-Z_] and [a-zA-Z0-9_.] *)
Definition ident_start (c : ascii) : bool := letter c || byte_is "_" c.
Definition ident_rest (c : ascii) : bool := word c || byte_is "." c.

End regexp.

(* ===================================================================== *)
(** ** The bundler: [internal/bundler] *)
(* ===================================================================== *)

Module bundler.

Import regexp.

Declare Scope regexp_scope.
Delimit Scope regexp_scope with re.
Infix "⋅" := Seq (at level 40, left associativity) : regexp_scope.

(** The three patterns compiled at the top of [processFile]. *)

(** require, blanks, an opening parenthesis, blanks, then a quoted
    string (group 1) or a bare dotted identifier (group 2), blanks and the
    closing parenthesis. *)
Definition requireRegex : Regexp :=
  (Lit "require" ⋅ Star space ⋅ Lit "(" ⋅ Star space ⋅
   Alt (Cls quote ⋅ Group 1 (Plus not_quote) ⋅ Cls quote)
       (Group 2 (Cls ident_start ⋅ Star ident_rest)) ⋅
   Star space ⋅ Lit ")")%re.

(** loadstring(game:HttpGet(URL))() with the URL quoted (group 1) and
    blanks allowed around every parenthesis. *)
Definition httpGetRegex : Regexp :=
  (Lit "loadstring" ⋅ Star space ⋅ Lit "(" ⋅ Star space ⋅
   Lit "game:HttpGet" ⋅ Star space ⋅ Lit "(" ⋅ Star space ⋅
   Cls quote ⋅ Group 1 (Plus not_quote) ⋅ Cls quote ⋅ Star space ⋅
   Lit ")" ⋅ Star space ⋅ Lit ")" ⋅ Star space ⋅
   Lit "(" ⋅ Star space ⋅ Lit ")")%re.

(** A word, blanks, an opening parenthesis, anything but a closing
    parenthesis, then the start of the loadstring(game:HttpGet idiom. *)
Definition funcCallHttpGetRegex : Regexp :=
  (Plus word ⋅ Star space ⋅ Lit "(" ⋅ Star not_rparen ⋅
   Lit "loadstring" ⋅ Star space ⋅ Lit "(" ⋅ Star space ⋅
   Lit "game:HttpGet")%re.

(** *** [isLocalModule] *)

Definition externalPrefixes : list string :=
  ["game"; "workspace"; "ReplicatedStorage"; "ServerStorage"; "StarterGui";
   "StarterPack"; "StarterPlayer"; "Lighting"; "SoundService"; "TweenService";
   "HttpService"; "RunService"; "UserInputService"; "Players"; "Teams";
   "Debris"; "CollectionService"].

Definition isLocalModule (modulePath : string) : bool :=
  if strings.Contains modulePath "::" then false
  else
    let firstPart := hd EmptyString (strings.Split modulePath ".") in
    if existsb (String.eqb firstPart) externalPrefixes then false
    else
      strings.HasPrefix modulePath "." ||
      strings.HasPrefix modulePath "/" ||
      strings.Contains modulePath "/" ||
      strings.HasSuffix modulePath ".lua" ||
      (strings.Contains modulePath "." && negb (strings.Contains modulePath "/")) ||
      negb (strings.Contains modulePath ".").

(** *** [resolveModulePath] *)

(** The cutset of the [strings.Trim] call: both quote characters. *)
Definition quotes : string := String "'" (String dquote EmptyString).

Definition ensureLua (resolvedPath : string) : string :=
  if strings.HasSuffix resolvedPath ".lua" then resolvedPath
  else resolvedPath ++ ".lua".

Definition resolveModulePath (baseDir currentFile modulePath : string) : string :=
  let modulePath := strings.Trim modulePath quotes in
  if strings.HasPrefix modulePath "/" then
    ensureLua (filepath.Join [baseDir; strings.TrimPrefix modulePath "/"])
  else if strings.Contains modulePath "." &&
          negb (strings.Contains modulePath "/") &&
          negb (strings.Contains modulePath "::") then
    let pathWithSlashes := strings.ReplaceAll modulePath "." "/" in
    ensureLua (filepath.Join [baseDir; pathWithSlashes])
  else
    let currentDir := filepath.Dir currentFile in
    filepath.Clean (ensureLua (filepath.Join [currentDir; modulePath])).

(** *** Results, collaborators and the bundler's state *)

(** A Go [(value, error)] pair; an error is carried as its message. *)
Inductive result (A : Type) : Type :=
| ok (a : A)
| fail (err : string).
Arguments ok {A} a.
Arguments fail {A} err.

(** Modelled from the spec: the fetch cache of [internal/cache], a
    key/value store with [Get(key) -> (value, found, error)],
    [Set(key, value) -> error] and [IsEnabled() -> bool]. Which calls fail
    is left to the two oracles. *)
Record Cache : Type := {
  enabled : bool;
  entries : gmap string string;
  getFails : string -> option string;
  setFails : string -> string -> option string
}.

Module cache.

Definition IsEnabled (c : Cache) : bool := enabled c.

Definition Get (c : Cache) (key : string) : string * bool * option string :=
  match getFails c key with
  | Some err => (EmptyString, false, Some err)
  | None =>
      match entries c !! key with
      | Some value => (value, true, None)
      | None => (EmptyString, false, None)
      end
  end.

Definition Set_ (c : Cache) (key value : string) : option string * Cache :=
  match setFails c key value with
  | Some err => (Some err, c)
  | None =>
      (None, {| enabled := enabled c; entries := <[key := value]> (entries c);
                getFails := getFails c; setFails := setFails c |})
  end.

End cache.

(** An HTTP response as [downloadHTTP] looks at it: the status code and
    what [io.ReadAll] makes of the body. *)
Record Response : Type := {
  StatusCode : Z;
  Body : result string
}.

(** The world outside the process: [os.ReadFile] and [httpClient.Get]. *)
Record World : Type := {
  ReadFile : string -> result string;
  HttpGet : string -> result Response
}.

(** What a run does, in order: [EvScan] is a call of [processFile] with
    its two arguments, [EvHttpGet] a call of [httpClient.Get], [EvReadFile]
    a call of [os.ReadFile] together with the module key it is made for,
    and [EvStore] an assignment to [b.modules]. *)
Inductive Event : Type :=
| EvScan (filePath content : string)
| EvHttpGet (url : string)
| EvReadFile (key path : string)
| EvStore (key : string).

(** The [Bundler] struct. [httpClient] is the [World]; [events] is the
    trace of the run, which the Go struct does not have. Output printed
    under [verbose] is not modelled. *)
Record Bundler : Type := {
  modules : gmap string string;
  httpModules : gmap string bool;
  baseDir : string;
  entryFile : string;
  cache_ : Cache;
  verbose : bool;
  obfuscator : option (string -> string);
  obfuscateLevel : Z;
  events : list Event
}.

Definition with_modules (f : gmap string string -> gmap string string) (b : Bundler) : Bundler :=
  {| modules := f (modules b); httpModules := httpModules b; baseDir := baseDir b;
     entryFile := entryFile b; cache_ := cache_ b; verbose := verbose b;
     obfuscator := obfuscator b; obfuscateLevel := obfuscateLevel b;
     events := events b |}.

Definition with_httpModules (f : gmap string bool -> gmap string bool) (b : Bundler) : Bundler :=
  {| modules := modules b; httpModules := f (httpModules b); baseDir := baseDir b;
     entryFile := entryFile b; cache_ := cache_ b; verbose := verbose b;
     obfuscator := obfuscator b; obfuscateLevel := obfuscateLevel b;
     events := events b |}.

Definition with_cache (c : Cache) (b : Bundler) : Bundler :=
  {| modules := modules b; httpModules := httpModules b; baseDir := baseDir b;
     entryFile := entryFile b; cache_ := c; verbose := verbose b;
     obfuscator := obfuscator b; obfuscateLevel := obfuscateLevel b;
     events := events b |}.

Definition emit (e : Event) (b : Bundler) : Bundler :=
  {| modules := modules b; httpModules := httpModules b; baseDir := baseDir b;
     entryFile := entryFile b; cache_ := cache_ b; verbose := verbose b;
     obfuscator := obfuscator b; obfuscateLevel := obfuscateLevel b;
     events := events b ++ [e] |}.

(** The struct literal at the end of [NewBundler]. *)
Definition emptyBundler (baseDir entryFile : string) (c : Cache) (verbose : bool) : Bundler :=
  {| modules := ∅; httpModules := ∅; baseDir := baseDir; entryFile := entryFile;
     cache_ := c; verbose := verbose; obfuscator := None; obfuscateLevel := 0;
     events := [] |}.

(** The assignment [b.modules[key] = value]. *)
Definition store (key value : string) (b : Bundler) : Bundler :=
  emit (EvStore key) (with_modules <[key := value]> b).

(** [NewBundler]; [wd] is what [os.Getwd] returns and [c] what
    [cache.NewCache(useCache)] returns. *)
Definition NewBundler (wd : result string) (c : result Cache)
    (entryFile : string) (verbose : bool) : result Bundler :=
  let finish baseDir :=
    match c with
    | fail err => fail ("failed to initialize cache: " ++ err)
    | ok c => ok (emptyBundler baseDir entryFile c verbose)
    end in
  let baseDir := filepath.Dir entryFile in
  if String.eqb baseDir "." then
    match wd with
    | fail err => fail ("failed to get working directory: " ++ err)
    | ok baseDir => finish baseDir
    end
  else finish baseDir.

(** [SetObfuscationLevel]; [newObfuscator] is [obfuscator.NewObfuscator]. *)
Definition SetObfuscationLevel (newObfuscator : Z -> string -> string)
    (level : Z) (b : Bundler) : Bundler :=
  {| modules := modules b; httpModules := httpModules b; baseDir := baseDir b;
     entryFile := entryFile b; cache_ := cache_ b; verbose := verbose b;
     obfuscator := if Z.ltb 0 level then Some (newObfuscator level) else obfuscator b;
     obfuscateLevel := level; events := events b |}.

(** *** [downloadHTTP] *)

Definition StatusOK : Z := 200.

(** [%d] of a status code. *)
Definition fmt_d (n : Z) : string := pretty n.

Definition downloadHTTP (w : World) (url : string) (b : Bundler) : result string * Bundler :=
  let cached :=
    if cache.IsEnabled (cache_ b) then
      match cache.Get (cache_ b) url with
      | (content, true, None) => Some content
      | _ => None
      end
    else None in
  match cached with
  | Some content => (ok content, b)
  | None =>
      let b := emit (EvHttpGet url) b in
      match HttpGet w url with
      | fail err => (fail ("failed to download " ++ url ++ ": " ++ err), b)
      | ok resp =>
          if negb (Z.eqb (StatusCode resp) StatusOK) then
            (fail ("failed to download " ++ url ++ ": status " ++ fmt_d (StatusCode resp)), b)
          else
            match Body resp with
            | fail err => (fail ("failed to read response from " ++ url ++ ": " ++ err), b)
            | ok contentStr =>
                if cache.IsEnabled (cache_ b) then
                  (ok contentStr, with_cache (snd (cache.Set_ (cache_ b) url contentStr)) b)
                else (ok contentStr, b)
            end
      end
  end.

(** *** [processFile] *)

Inductive outcome : Type :=
| Ok                  (* return nil *)
| Err (msg : string)  (* return err *)
| OutOfFuel.          (* the recursion went deeper than the fuel *)

(** Where control goes after one of the two [if] blocks of the loop body. *)
Inductive flow : Type :=
| Next (b : Bundler)                 (* falls out of the block *)
| Continue (b : Bundler)             (* continue *)
| Return (o : outcome) (b : Bundler) (* return *).

Definition flow_state (f : flow) : Bundler :=
  match f with
  | Next b | Continue b | Return _ b => b
  end.

Section loop.

Variable w : World.
(** The recursive call [b.processFile]. *)
Variable self : string -> string -> Bundler -> outcome * Bundler.

Definition recurse (filePath content : string) (b : Bundler) : flow :=
  match self filePath content b with
  | (Ok, b) => Next b
  | (o, b) => Return o b
  end.

(** The block guarded by [httpGetRegex.FindStringSubmatch(line)]. *)
Definition fetchRule (line : string) (b : Bundler) : flow :=
  let matches := FindStringSubmatch httpGetRegex line in
  if Nat.ltb 1 (length matches) then
    let url := nth 1 matches EmptyString in
    match modules b !! url with
    | Some _ => Continue b
    | None =>
        match downloadHTTP w url b with
        | (fail err, b) => Return (Err err) b
        | (ok httpContent, b) =>
            let b := with_httpModules <[url := true]> b in
            let b := store url httpContent b in
            recurse url httpContent b
        end
    end
  else Next b.

(** The literal the require pattern captured: group 1, or group 2 when
    group 1 is empty. *)
Definition requireLiteral (matches : list string) : string :=
  let modulePath := nth 1 matches EmptyString in
  if String.eqb modulePath EmptyString && Nat.ltb 2 (length matches)
  then nth 2 matches EmptyString
  else modulePath.

(** The block guarded by [requireRegex.FindStringSubmatch(line)]. *)
Definition requireRule (filePath line : string) (b : Bundler) : flow :=
  let matches := FindStringSubmatch requireRegex line in
  if Nat.ltb 1 (length matches) then
    let modulePath := requireLiteral matches in
    if negb (String.eqb modulePath EmptyString) && isLocalModule modulePath then
      let resolvedPath := resolveModulePath (baseDir b) filePath modulePath in
      match modules b !! modulePath with
      | Some _ => Continue b
      | None =>
          let b := emit (EvReadFile modulePath resolvedPath) b in
          match ReadFile w resolvedPath with
          | fail err =>
              Return (Err ("failed to read file " ++ resolvedPath ++ ": " ++ err)) b
          | ok fileContent =>
              let moduleContent :=
                match obfuscator b with
                | Some o => if Z.ltb 0 (obfuscateLevel b) then o fileContent else fileContent
                | None => fileContent
                end in
              let b := store modulePath moduleContent b in
              recurse resolvedPath fileContent b
          end
      end
    else Next b
  else Next b.

(** One turn of the [for _, line := range lines] loop. *)
Definition loopBody (filePath line : string) (b : Bundler) : flow :=
  if MatchString funcCallHttpGetRegex line then Continue b
  else
    match fetchRule line b with
    | Next b => requireRule filePath line b
    | stop => stop
    end.

Fixpoint forLines (filePath : string) (lines : list string) (b : Bundler)
    : outcome * Bundler :=
  match lines with
  | [] => (Ok, b)
  | line :: lines' =>
      match loopBody filePath line b with
      | Next b | Continue b => forLines filePath lines' b
      | Return o b => (o, b)
      end
  end.

End loop.

Definition newline : ascii := ascii_of_N 10.

Fixpoint processFile (w : World) (fuel : nat) (filePath content : string) (b : Bundler)
    : outcome * Bundler :=
  match fuel with
  | O => (OutOfFuel, b)
  | S fuel' =>
      forLines w (processFile w fuel') filePath (strings.Split content newline)
        (emit (EvScan filePath content) b)
  end.

End bundler.

(* ===================================================================== *)
(** ** The bundler's entry points: [Bundle] and [GetModules] *)
(* ===================================================================== *)

Module bundle.

Import bundler.

(** The functions of the package that write and post-process the output.
    Their code is not part of this development; [Bundle] takes them as
    they are. *)
Record Emitter : Type := {
  generateBundle : Bundler -> string -> string;
  removeDebugStatements : string -> string;
  removeComments : string -> string;
  minifyCode : string -> string
}.

(** The guarded call [b.obfuscator.Obfuscate(text)]. *)
Definition maybeObfuscate (b : Bundler) (text : string) : string :=
  match obfuscator b with
  | Some o => if Z.ltb 0 (obfuscateLevel b) then o text else text
  | None => text
  end.

(** [Bundle]. The result is [None] when the traversal ran out of fuel.
    The read of the entry file is made for no module key and leaves no
    event. *)
Definition Bundle (tools : Emitter) (w : World) (fuel : nat) (releaseMode : bool)
    (b : Bundler) : option (result string) * Bundler :=
  match ReadFile w (entryFile b) with
  | fail err => (Some (fail ("failed to read entry file: " ++ err)), b)
  | ok mainContent =>
      match processFile w fuel (entryFile b) mainContent b with
      | (OutOfFuel, b) => (None, b)
      | (Err msg, b) => (Some (fail msg), b)
      | (Ok, b) =>
          let mainContent := maybeObfuscate b mainContent in
          let bundleOutput := generateBundle tools b mainContent in
          let bundleOutput :=
            if releaseMode then
              minifyCode tools (removeComments tools (removeDebugStatements tools bundleOutput))
            else bundleOutput in
          (Some (ok bundleOutput), b)
      end
  end.

(** [GetModules] *)
Definition GetModules (b : Bundler) : gmap string string := modules b.

End bundle.

(* ===================================================================== *)
(** ** The command: [cmd/root.go] *)
(* ===================================================================== *)

Module cmd.

Import bundler bundle.

(** The first [n] bytes of [s], all of it when it is shorter: [s[:n]]
    under the length check that guards it in [SetVersionInfo]. *)
Fixpoint first_bytes (n : nat) (s : string) : string :=
  match n, s with
  | S n', String c s' => String c (first_bytes n' s')
  | _, _ => EmptyString
  end.

(** The commit hash as [SetVersionInfo] displays it. *)
Definition commitDisplay (commit : string) : string :=
  if Nat.ltb 8 (String.length commit) then first_bytes 8 commit else commit.

(** [SetVersionInfo]: the string it stores in [rootCmd.Version]. *)
Definition SetVersionInfo (v date commit : string) : string :=
  v ++ " (built: " ++ date ++ ", commit: " ++ commitDisplay commit ++ ")".

(** The flags of the root command, with the defaults of [init]. *)
Record Flags : Type := {
  entry : string;
  output : string;
  release : bool;
  verboseFlag : bool;
  obfuscate : Z;
  serve : bool;
  port : Z;
  noCache : bool
}.

Definition defaultFlags : Flags :=
  {| entry := "main.lua"; output := "bundle.lua"; release := false;
     verboseFlag := false; obfuscate := 0; serve := false; port := 8080;
     noCache := false |}.

(** What the command needs from outside: the working directory, the cache
    and obfuscator constructors, the emitter, the world, and
    [os.WriteFile], which gives an error or none. *)
Record Host : Type := {
  Getwd : result string;
  NewCache : bool -> result Cache;
  NewObfuscator : Z -> string -> string;
  tools : Emitter;
  world : World;
  WriteFile : string -> string -> option string
}.

(** How the [Run] function of the root command ends. Printing is not
    modelled. *)
Inductive Exit : Type :=
| Exit1                         (* os.Exit(1) *)
| Panic                         (* index out of range *)
| Unfinished                    (* the traversal ran out of fuel *)
| Written (outputFile content : string) (served : option Z).
                                (* the file is written; StartServer(outputFile, port) under --serve *)

Definition levelName : list string := ["None"; "Basic"; "Medium"; "Heavy"].

(** The [if obfuscateLevel > 0] block of the configuration printout: the
    level after its clamp, and the element of [levelName] it prints. *)
Definition printLevel (obfuscateLevel : Z) : Z * option string :=
  if Z.ltb 0 obfuscateLevel then
    let obfuscateLevel := if Z.ltb 3 obfuscateLevel then 3%Z else obfuscateLevel in
    (obfuscateLevel, nth_error levelName (Z.to_nat obfuscateLevel))
  else (obfuscateLevel, Some EmptyString).

Definition Run (host : Host) (fuel : nat) (flags : Flags) : Exit :=
  if String.eqb (entry flags) EmptyString then Exit1
  else
    match printLevel (obfuscate flags) with
    | (_, None) => Panic
    | (obfuscateLevel, Some _) =>
        match NewBundler (Getwd host) (NewCache host (negb (noCache flags)))
                (entry flags) (verboseFlag flags) with
        | fail _ => Exit1
        | ok b =>
            let b :=
              if Z.ltb 0 obfuscateLevel
              then SetObfuscationLevel (NewObfuscator host) obfuscateLevel b
              else b in
            match Bundle (tools host) (world host) fuel (release flags) b with
            | (None, _) => Unfinished
            | (Some (fail _), _) => Exit1
            | (Some (ok result), _) =>
                match WriteFile host (output flags) result with
                | Some _ => Exit1
                | None =>
                    Written (output flags) result
                      (if serve flags then Some (port flags) else None)
                end
            end
        end
    end.

End cmd.

(* ===================================================================== *)
(** ** Vocabulary of the statements *)
(* ===================================================================== *)

Module props.

Import regexp bundler.

(** Every byte of the string satisfies [p]. *)
Fixpoint all_bytes (p : ascii -> bool) (s : string) : bool :=
  match s with
  | EmptyString => true
  | String c s' => p c && all_bytes p s'
  end.

(** An element [Clean] keeps as it is. *)
Definition ordinary (e : string) : bool :=
  negb (String.eqb e EmptyString) && negb (String.eqb e ".") && negb (String.eqb e "..").

(** What [clean_elems] leaves is never empty and never ".". *)
Definition solid (e : string) : Prop := e <> EmptyString /\ e <> ".".

(** An identifier: a letter or underscore, then letters, digits and
    underscores. *)
Definition is_ident (s : string) : bool :=
  match s with
  | EmptyString => false
  | String c s' => ident_start c && all_bytes word s'
  end.

(** [Matches r s s']: [r] matches a prefix of [s] and leaves [s']. *)
Inductive Matches : Regexp -> string -> string -> Prop :=
| MLit l s : Matches (Lit l) (l ++ s) s
| MCls (p : ascii -> bool) c s : p c = true -> Matches (Cls p) (String c s) s
| MStar p l s : all_bytes p l = true -> Matches (Star p) (l ++ s) s
| MPlus (p : ascii -> bool) c l s :
    p c = true -> all_bytes p l = true -> Matches (Plus p) (String c (l ++ s)) s
| MSeq r1 r2 s s1 s2 :
    Matches r1 s s1 -> Matches r2 s1 s2 -> Matches (Seq r1 r2) s s2
| MAltL r1 r2 s s' : Matches r1 s s' -> Matches (Alt r1 r2) s s'
| MAltR r1 r2 s s' : Matches r2 s s' -> Matches (Alt r1 r2) s s'
| MGroup i r s s' : Matches r s s' -> Matches (Group i r) s s'.

(** The key an event reads or fetches, if it does. *)
Definition io_key (e : Event) : option string :=
  match e with
  | EvHttpGet url => Some url
  | EvReadFile key _ => Some key
  | EvScan _ _ | EvStore _ => None
  end.

Definition io_keys (evs : list Event) : list string := omap io_key evs.

(** The key an event creates a record for, if it does. *)
Definition store_key (e : Event) : option string :=
  match e with
  | EvStore key => Some key
  | _ => None
  end.

Definition store_keys (evs : list Event) : list string := omap store_key evs.

(** The events [new] are what separates [b'] from [b]: they read or fetch
    each key at most once, store each key at most once, and touch only keys
    the table lacked; the table has only grown, and it holds every key
    stored and, after success, every key read or fetched. *)
Definition effects (b : Bundler) (o : outcome) (b' : Bundler) : Prop :=
  exists new,
    events b' = (events b ++ new)%list /\
    NoDup (io_keys new) /\
    NoDup (store_keys new) /\
    (forall k, k ∈ io_keys new \/ k ∈ store_keys new -> modules b !! k = None) /\
    (o = Ok -> forall k, k ∈ io_keys new -> is_Some (modules b' !! k)) /\
    (forall k, k ∈ store_keys new -> is_Some (modules b' !! k)) /\
    modules b ⊆ modules b'.

(** [Q] read on the bundler a block of the loop body leaves behind. *)
Definition flow_rel (Q : Bundler -> outcome -> Bundler -> Prop) (b : Bundler) (f : flow) : Prop :=
  match f with
  | Next b' | Continue b' => Q b Ok b'
  | Return o b' => Q b o b'
  end.

(** The references the two rules can extract from a line. *)
Definition line_keys (line : string) : list string :=
  let fetched := FindStringSubmatch httpGetRegex line in
  let required := FindStringSubmatch requireRegex line in
  ((if Nat.ltb 1 (length fetched) then [nth 1 fetched EmptyString] else []) ++
   (if Nat.ltb 1 (length required) then [requireLiteral required] else []))%list.

Definition content_keys (content : string) : list string :=
  concat (map line_keys (strings.Split content newline)).

(** Every reference in the text belongs to [K]. *)
Definition scannable (K : gset string) (content : string) : Prop :=
  forall k, k ∈ content_keys content -> k ∈ K.

(** A finite set of references covers everything the world can serve. *)
Record closed (w : World) (K : gset string) : Prop := {
  closed_files : forall path content,
    ReadFile w path = ok content -> scannable K content;
  closed_web : forall url resp content,
    HttpGet w url = ok resp -> Body resp = ok content -> scannable K content
}.

Definition cache_closed (K : gset string) (b : Bundler) : Prop :=
  forall url content, entries (cache_ b) !! url = Some content -> scannable K content.

(** The references of [K] not yet in the table. *)
Definition pending (K : gset string) (b : Bundler) : nat := size (K ∖ dom (modules b)).

(** A block of the loop body did not run out of fuel, kept the cache
    within [K] and did not shrink the table. *)
Definition flow_ok (K : gset string) (b : Bundler) (f : flow) : Prop :=
  match f with
  | Next b' | Continue b' => cache_closed K b' /\ modules b ⊆ modules b'
  | Return o b' => o <> OutOfFuel
  end.

(** A block of the loop body did not run out of fuel. *)
Definition finished (f : flow) : Prop :=
  match f with
  | Return OutOfFuel _ => False
  | _ => True
  end.

(** A line in which a word, blanks and an opening parenthesis come before
    the start of the fetch idiom, with no closing parenthesis between:
    [pre] and [post] are arbitrary, [ident] is the word, [inner] what lies
    between the outer parenthesis and loadstring. *)
Definition guarded (pre ident ws1 inner ws2 ws3 post : string) : string :=
  pre ++ ident ++ ws1 ++ "(" ++ inner ++ "loadstring" ++ ws2 ++ "(" ++ ws3 ++
  "game:HttpGet" ++ post.

End props.

(* ===================================================================== *)
(** ** Sample sessions *)
(* ===================================================================== *)

Module samples.

Import bundler.

(** A text given line by line. *)
Definition text (lines : list string) : string :=
  strings.Join lines (String newline EmptyString).

Definition noCache : Cache :=
  {| enabled := false; entries := ∅;
     getFails := fun _ => None; setFails := fun _ _ => None |}.

(** A session on /proj/main.lua, cache off, no obfuscation. *)
Definition session : Bundler := emptyBundler "/proj" "/proj/main.lua" noCache false.

(** Files served from a list of (path, content) pairs. *)
Fixpoint lookup_file (files : list (string * string)) (path : string) : result string :=
  match files with
  | [] => fail ("open " ++ path ++ ": no such file or directory")
  | (p, content) :: files' =>
      if String.eqb p path then ok content else lookup_file files' path
  end.

Definition offline (files : list (string * string)) : World :=
  {| ReadFile := lookup_file files;
     HttpGet := fun url => fail ("Get " ++ url ++ ": no such host") |}.

(** main requires a, a requires b, b requires a. *)
Definition a_lua : string := text ["local b = require('b')"; "return { b = b }"].
Definition b_lua : string := text ["local a = require('a')"; "return { a = a }"].
Definition main_lua : string := text ["local a = require('a')"; "print(a)"].

Definition cycle : World :=
  offline [("/proj/a.lua", a_lua); ("/proj/b.lua", b_lua)].

End samples.

(** An obfuscated session. *)
Module obfuscated.

Import bundler samples.

(** An obfuscator that leaves the code alone and puts a banner first. *)
Definition banner (source : string) : string :=
  text ["-- obfuscated"; source].

Definition m_lua : string := "return 1".

Definition world : World := offline [("/proj/m.lua", m_lua)].

Definition session2 : Bundler :=
  SetObfuscationLevel (fun _ => banner) 2 session.

End obfuscated.

(** A host that is up. *)
Module online.

Import bundler.

(** A host that answers every URL with status 200 and one line of Lua. *)
Definition world : World :=
  {| ReadFile := fun path => fail ("open " ++ path ++ ": no such file or directory");
     HttpGet := fun _ => ok {| StatusCode := 200; Body := ok "return {}" |} |}.

End online.

(** A URL fetched twice. *)
Module duplicate.

Import bundler samples.

Definition fetch_line : string := "loadstring(game:HttpGet('http://h/lib.lua'))()".
Definition both_line : string :=
  "loadstring(game:HttpGet('http://h/lib.lua'))() local m = require('m')".

Definition world : World :=
  {| ReadFile := lookup_file [("/proj/m.lua", "return 1")];
     HttpGet := fun _ => ok {| StatusCode := 200; Body := ok "return {}" |} |}.

End duplicate.

(** Statuses and caches. *)
Module statuses.

Import bundler.

(** A host that answers 204 with an empty body, and a cache that is on,
    empty and refuses every write. *)
Definition no_content : World :=
  {| ReadFile := fun path => fail "unused";
     HttpGet := fun _ => ok {| StatusCode := 204; Body := ok EmptyString |} |}.

Definition readOnlyCache : Cache :=
  {| enabled := true; entries := ∅;
     getFails := fun _ => None; setFails := fun _ _ => Some "read-only file system" |}.

End statuses.

(** A remote script with a sibling. *)
Module remote.

Import bundler samples.

Definition url : string := "https://example.com/lib/main.lua".

(** The host serves one script, which requires a sibling file. *)
Definition world : World :=
  {| ReadFile := lookup_file [];
     HttpGet := fun _ =>
       ok {| StatusCode := 200; Body := ok "local util = require('./util')" |} |}.

Definition fetch_line : string :=
  "loadstring(game:HttpGet('https://example.com/lib/main.lua'))()".

End remote.

(* ===================================================================== *)
(** ** Vocabulary of the further properties *)
(* ===================================================================== *)

Module account.

Import regexp bundler bundle cmd props.

(** What [downloadHTTP] makes of a URL once it asks the network. *)
Definition fetched (w : World) (url : string) : result string :=
  match HttpGet w url with
  | fail cause => fail ("failed to download " ++ url ++ ": " ++ cause)
  | ok resp =>
      if Z.eqb (StatusCode resp) 200 then
        match Body resp with
        | fail cause => fail ("failed to read response from " ++ url ++ ": " ++ cause)
        | ok text => ok text
        end
      else fail ("failed to download " ++ url ++ ": status " ++ fmt_d (StatusCode resp))
  end.

(** The fields of the bundler that are set before the traversal. *)
Definition same_settings (b b' : Bundler) : Prop :=
  baseDir b' = baseDir b /\ entryFile b' = entryFile b /\ verbose b' = verbose b /\
  obfuscator b' = obfuscator b /\ obfuscateLevel b' = obfuscateLevel b /\
  enabled (cache_ b') = enabled (cache_ b).

(** Every flag of [httpModules] is true and belongs to a record. *)
Definition flags_ok (b : Bundler) : Prop :=
  forall k v, httpModules b !! k = Some v -> v = true /\ is_Some (modules b !! k).

(** The event [e] is the read or the request that failed with [msg]. *)
Definition failed_at (w : World) (e : Event) (msg : string) : Prop :=
  (exists key path cause,
     e = EvReadFile key path /\ ReadFile w path = fail cause /\
     msg = "failed to read file " ++ path ++ ": " ++ cause) \/
  (exists url, e = EvHttpGet url /\ fetched w url = fail msg).

(** The full account of a run from [b] to [b'] with outcome [o]: the
    events [new] it adds, and for each of them what the tables hold. *)
Definition accounted (w : World) (b : Bundler) (o : outcome) (b' : Bundler) : Prop :=
  exists new,
    events b' = (events b ++ new)%list /\
    same_settings b b' /\
    modules b ⊆ modules b' /\
    (forall k,
       httpModules b' !! k = httpModules b !! k \/
       (modules b !! k = None /\ is_Some (modules b' !! k) /\
        httpModules b' !! k = Some true)) /\
    (forall k path, EvReadFile k path ∈ new ->
       modules b !! k = None /\
       httpModules b' !! k = httpModules b !! k /\
       match ReadFile w path with
       | ok fileContent => modules b' !! k = Some (maybeObfuscate b fileContent)
       | fail cause => o = Err ("failed to read file " ++ path ++ ": " ++ cause)
       end) /\
    (forall url, EvHttpGet url ∈ new ->
       modules b !! url = None /\
       match fetched w url with
       | ok body => modules b' !! url = Some body /\ httpModules b' !! url = Some true
       | fail msg => o = Err msg
       end) /\
    (forall k, EvStore k ∈ new ->
       is_Some (modules b' !! k) /\
       ((exists path, EvReadFile k path ∈ new) \/ httpModules b' !! k = Some true)) /\
    (forall msg, o = Err msg ->
       exists before e, new = (before ++ [e])%list /\ failed_at w e msg).

(** The references a scan of [line] leaves in the table when it goes
    through: nothing for a guarded line, the URL for a line the fetch
    pattern matches, else the Local literal of the require pattern. *)
Definition line_needs (line : string) : list string :=
  if MatchString funcCallHttpGetRegex line then []
  else
    let matches := FindStringSubmatch httpGetRegex line in
    if Nat.ltb 1 (length matches) then [nth 1 matches EmptyString]
    else
      let matches := FindStringSubmatch requireRegex line in
      let modulePath := requireLiteral matches in
      if Nat.ltb 1 (length matches) && negb (String.eqb modulePath EmptyString)
         && isLocalModule modulePath
      then [modulePath] else [].

(** The table of [b] has a record for every reference of every text the
    events show as scanned. *)
Definition scans_covered (b : Bundler) (evs : list Event) : Prop :=
  forall filePath content line k,
    EvScan filePath content ∈ evs ->
    line ∈ strings.Split content newline ->
    k ∈ line_needs line ->
    is_Some (modules b !! k).

(** What a block of the loop body leaves behind when it goes through:
    new events whose scans are covered, a table that has only grown, and
    records for [needs]. *)
Definition flow_covers (b : Bundler) (needs : list string) (f : flow) : Prop :=
  match f with
  | Next b' | Continue b' =>
      exists new,
        events b' = (events b ++ new)%list /\ scans_covered b' new /\
        modules b ⊆ modules b' /\
        forall k, k ∈ needs -> is_Some (modules b' !! k)
  | Return o _ => o <> Ok
  end.

(** No rule of the loop body finds anything to do on the line. *)
Definition idle_line (line : string) : bool :=
  MatchString funcCallHttpGetRegex line ||
  (negb (Nat.ltb 1 (length (FindStringSubmatch httpGetRegex line))) &&
   negb (Nat.ltb 1 (length (FindStringSubmatch requireRegex line)) &&
         negb (String.eqb (requireLiteral (FindStringSubmatch requireRegex line)) EmptyString) &&
         isLocalModule (requireLiteral (FindStringSubmatch requireRegex line)))).

(** The obfuscation level as [Run] hands it on: nothing below 1, at most 3. *)
Definition clampLevel (level : Z) : Z :=
  if Z.ltb 0 level then (if Z.ltb 3 level then 3 else level)%Z else 0%Z.

(** The flags with another obfuscation level. *)
Definition withLevel (level : Z) (flags : Flags) : Flags :=
  {| entry := entry flags; output := output flags; release := release flags;
     verboseFlag := verboseFlag flags; obfuscate := level; serve := serve flags;
     port := port flags; noCache := noCache flags |}.

End account.

(** Further sample worlds. *)
Module more_samples.

Import bundler bundle cmd samples.

(** A stand-in emitter: a header line followed by the entry text; its
    release passes change nothing. *)
Definition plainTools : Emitter :=
  {| generateBundle := fun b mainContent =>
       text ["-- bundle"; mainContent];
     removeDebugStatements := fun s => s;
     removeComments := fun s => s;
     minifyCode := fun s => s |}.

Definition quietCache : Cache :=
  {| enabled := true; entries := ∅;
     getFails := fun _ => None; setFails := fun _ _ => None |}.

Definition host : Host :=
  {| Getwd := ok "/proj"; NewCache := fun _ => ok noCache;
     NewObfuscator := fun _ => obfuscated.banner; tools := plainTools;
     world := offline [("main.lua", "print('hello')")];
     WriteFile := fun _ _ => None |}.

End more_samples.

(* ===================================================================== *)
(** ** The embedding on the inputs of the repository's tests *)
(* ===================================================================== *)

Module tests.

Import regexp bundler.

(** The table of [TestIsLocalModule]. The test expects true for the bare
    name ReplicatedStorage, on which the prefix check answers false; every
    other row is as the test has it. *)
Example TestIsLocalModule :
  map isLocalModule
    ["./module.lua"; "../module.lua"; "/core.lua"; "utils/helper.lua"; "module.lua";
     "localmodule"; "game.Workspace"; "game::HttpService"; "ReplicatedStorage";
     "modules.tasks.wait_until_idle"; "tasks.cook"; "modules.tasks.cook"]
  = [true; true; true; true; true;
     true; false; false; false;
     true; true; true].
Proof. reflexivity. Qed.

(** The table of [TestResolveModulePath], with [baseDir] set to /base. The
    test expects /base/helper.lua for helper.lua, which the dotted-chain
    branch takes to /base/helper/lua.lua; every other row is as the test
    has it. *)
Example TestResolveModulePath :
  map (fun '(currentFile, modulePath) => resolveModulePath "/base" currentFile modulePath)
    [("/base/main.lua", "helper"); ("/base/main.lua", "helper.lua");
     ("/base/main.lua", "utils/helper"); ("/base/sub/file.lua", "../core");
     ("/base/sub/file.lua", "/core.lua"); ("/base/main.lua", "'helper'");
     ("/base/main.lua", String dquote ("helper" ++ String dquote EmptyString));
     ("/base/main.lua", "modules.tasks.wait_until_idle");
     ("/base/tasks/main.lua", "tasks.cook")]
  = ["/base/helper.lua"; "/base/helper/lua.lua";
     "/base/utils/helper.lua"; "/base/core.lua";
     "/base/core.lua"; "/base/helper.lua";
     "/base/helper.lua";
     "/base/modules/tasks/wait_until_idle.lua";
     "/base/tasks/cook.lua"].
Proof. reflexivity. Qed.

(** [filepath.Clean] and [filepath.Dir] on the examples of their
    documentation. *)
Example Clean_examples :
  map filepath.Clean
    ["a/c"; "a//c"; "a/c/."; "a/c/b/.."; "/../a/c"; "/../a/b/../././/c"; EmptyString;
     "../../a/.."; "/"; "a/.."]
  = ["a/c"; "a/c"; "a/c"; "a/c"; "/a/c"; "/a/c"; ".";
     "../.."; "/"; "."].
Proof. reflexivity. Qed.

Example Dir_examples :
  map filepath.Dir ["/foo/bar/baz.js"; "/foo/bar/baz"; "/foo/bar/baz/"; "/dirty//path///";
                    "dev.txt"; "../todo.txt"; ".."; "."; "/"; EmptyString]
  = ["/foo/bar"; "/foo/bar"; "/foo/bar/baz"; "/dirty/path";
     "."; ".."; "."; "."; "/"; "."].
Proof. reflexivity. Qed.

(** The three patterns on typical lines: [FindStringSubmatch] gives the
    whole match and the groups, or nothing. *)
Example requireRegex_examples :
  map (FindStringSubmatch requireRegex)
    ["local x = require('a.b')"; "require( foo.bar )"; "require(x"; "require('')";
     "local y = require  ('./m')  require('z')"]
  = [["require('a.b')"; "a.b"; EmptyString];
     ["require( foo.bar )"; EmptyString; "foo.bar"];
     []; [];
     ["require  ('./m')"; "./m"; EmptyString]].
Proof. reflexivity. Qed.

Example httpGetRegex_examples :
  map (FindStringSubmatch httpGetRegex)
    ["loadstring(game:HttpGet('http://x/y'))()"; "loadstring( game:HttpGet ( 'u' ) ) ( )";
     "loadstring(game:HttpGet('u'))"]
  = [["loadstring(game:HttpGet('http://x/y'))()"; "http://x/y"];
     ["loadstring( game:HttpGet ( 'u' ) ) ( )"; "u"];
     []].
Proof. reflexivity. Qed.

Example funcCallHttpGetRegex_examples :
  map (MatchString funcCallHttpGetRegex)
    ["queue_on_teleport('loadstring(game:HttpGet(url))()')";
     "loadstring(game:HttpGet('u'))()";
     "pcall(loadstring(game:HttpGet('u')))";
     "f() loadstring(game:HttpGet('u'))()"]
  = [true; false; true; false].
Proof. reflexivity. Qed.

End tests.

(* ===================================================================== *)
(** ** Facts about the string functions *)
(* ===================================================================== *)

Module string_facts.

Import strings props.

Lemma append_assoc (s t u : string) : (s ++ t) ++ u = s ++ t ++ u.
Proof.
  induction s as [|c s IH]; [done|].
  cbv [String.append]. fold String.append. by rewrite IH.
Qed.

Lemma all_bytes_app p s t :
  all_bytes p (s ++ t) = all_bytes p s && all_bytes p t.
Proof.
  induction s as [|c s IH]; simpl; [done|].
  rewrite IH. by rewrite andb_assoc.
Qed.

Lemma all_bytes_weaken (p q : ascii -> bool) s :
  (forall c, p c = true -> q c = true) ->
  all_bytes p s = true -> all_bytes q s = true.
Proof.
  intros Hpq. induction s as [|c s IH]; simpl; [done|].
  intros [Hc Hs]%andb_true_iff. rewrite (Hpq _ Hc). simpl. auto.
Qed.

(** A string that lacks the first byte of [sub] does not contain [sub]. *)
Lemma Contains_absent p c sub s :
  p c = false -> all_bytes p s = true -> Contains s (String c sub) = false.
Proof.
  intros Hc. induction s as [|d s IH]; simpl; [done|].
  intros [Hd Hs]%andb_true_iff.
  destruct (ascii_dec c d) as [->|Hne]; [congruence|].
  rewrite IH by done. by rewrite orb_false_r.
Qed.

Lemma Contains_here s sub t : Contains (s ++ sub ++ t) sub = true.
Proof.
  induction s as [|c s IH]; simpl.
  - assert (String.prefix sub (sub ++ t) = true) as Hp.
    { clear. induction sub as [|a sub IH]; simpl.
      - by destruct t.
      - destruct (ascii_dec a a); [done|congruence]. }
    destruct sub; simpl in *; [by destruct t|].
    by rewrite Hp.
  - rewrite IH. by rewrite orb_true_r.
Qed.

Lemma HasPrefix_absent p c sub s :
  p c = false -> all_bytes p s = true -> HasPrefix s (String c sub) = false.
Proof.
  intros Hc Hs. destruct s as [|d s]; simpl in *; [done|].
  apply andb_true_iff in Hs as [Hd _].
  destruct (ascii_dec c d) as [->|Hne]; [congruence|done].
Qed.

Lemma TrimLeft_id p cutset s :
  (forall c, p c = true -> in_cutset c cutset = false) ->
  all_bytes p s = true -> TrimLeft s cutset = s.
Proof.
  intros Hp. destruct s as [|c s]; simpl; [done|].
  intros [Hc _]%andb_true_iff. by rewrite (Hp _ Hc).
Qed.

Lemma TrimRight_id p cutset s :
  (forall c, p c = true -> in_cutset c cutset = false) ->
  all_bytes p s = true -> TrimRight s cutset = s.
Proof.
  intros Hp. induction s as [|c s IH]; simpl; [done|].
  intros [Hc Hs]%andb_true_iff. rewrite IH by done.
  destruct s; [|done]. by rewrite (Hp _ Hc).
Qed.

Lemma Trim_id p cutset s :
  (forall c, p c = true -> in_cutset c cutset = false) ->
  all_bytes p s = true -> Trim s cutset = s.
Proof.
  intros Hp Hs. unfold Trim.
  rewrite (TrimLeft_id p) by done. by apply (TrimRight_id p).
Qed.

Lemma ReplaceAll_app s t old new :
  ReplaceAll (s ++ t) old new = ReplaceAll s old new ++ ReplaceAll t old new.
Proof. induction s as [|c s IH]; simpl; [done|]. by rewrite IH. Qed.

Lemma ReplaceAll_absent s old new :
  all_bytes (fun c => negb (Ascii.eqb c old)) s = true -> ReplaceAll s old new = s.
Proof.
  induction s as [|c s IH]; simpl; [done|].
  intros [Hc Hs]%andb_true_iff. rewrite IH by done.
  by destruct (Ascii.eqb c old).
Qed.

Lemma Split_absent s sep :
  all_bytes (fun c => negb (Ascii.eqb c sep)) s = true -> Split s sep = [s].
Proof.
  induction s as [|c s IH]; simpl; [done|].
  intros [Hc Hs]%andb_true_iff. rewrite IH by done.
  by destruct (Ascii.eqb c sep).
Qed.

Lemma Split_nonempty s sep : Split s sep <> [].
Proof.
  destruct s as [|c s]; simpl; [done|].
  destruct (Ascii.eqb c sep); [done|]. by destruct (Split s sep).
Qed.

Lemma Split_app s t sep :
  Split (s ++ String sep t) sep = (Split s sep ++ Split t sep)%list.
Proof.
  induction s as [|c s IH]; simpl.
  - by rewrite Ascii.eqb_refl.
  - rewrite IH. destruct (Ascii.eqb c sep); [done|].
    pose proof (Split_nonempty s sep). by destruct (Split s sep).
Qed.

Lemma Split_Join elems sep :
  elems <> [] ->
  Forall (fun e => all_bytes (fun c => negb (Ascii.eqb c sep)) e = true) elems ->
  Split (Join elems (String sep EmptyString)) sep = elems.
Proof.
  intros Hne Hall. induction Hall as [|e elems He Hall IH]; [done|].
  destruct elems as [|e' elems].
  - by apply Split_absent.
  - change (Join (e :: e' :: elems) (String sep EmptyString))
      with (e ++ String sep (Join (e' :: elems) (String sep EmptyString))).
    rewrite Split_app, (Split_absent e) by done.
    rewrite IH by done. done.
Qed.

Lemma strings_Join_app elems elems' sep :
  elems <> [] -> elems' <> [] ->
  Join (elems ++ elems')%list sep = Join elems sep ++ sep ++ Join elems' sep.
Proof.
  intros Hne Hne'. induction elems as [|e elems IH]; [done|].
  destruct elems as [|e2 elems].
  - simpl. by destruct elems'.
  - change (Join ((e :: e2 :: elems) ++ elems')%list sep)
      with (e ++ sep ++ Join ((e2 :: elems) ++ elems')%list sep).
    rewrite IH by done. simpl.
    by rewrite !append_assoc.
Qed.

Lemma HasSuffix_cons d s suf :
  HasSuffix (String d s) suf = String.eqb (String d s) suf || HasSuffix s suf.
Proof. done. Qed.

Lemma HasSuffix_absent p c suf s :
  p c = false -> all_bytes p s = true -> HasSuffix s (String c suf) = false.
Proof.
  intros Hc. induction s as [|d s IH]; [done|].
  intros [Hd Hs]%andb_true_iff. rewrite HasSuffix_cons, IH by done.
  rewrite orb_false_r. apply String.eqb_neq. congruence.
Qed.

(** A string cannot end in [suf] when [suf] lacks a byte of the string's
    tail and the tail lacks the first byte of [suf]. *)
Lemma HasSuffix_after_sep p q d c suf s t :
  p c = false -> all_bytes p t = true ->
  q d = false -> all_bytes q (String c suf) = true ->
  HasSuffix (s ++ String d t) (String c suf) = false.
Proof.
  intros Hc Ht Hd Hsuf. induction s as [|a s IH].
  - change (EmptyString ++ String d t) with (String d t).
    rewrite HasSuffix_cons, (HasSuffix_absent p) by done.
    rewrite orb_false_r. apply String.eqb_neq. intros [= -> _].
    simpl in Hsuf. by rewrite Hd in Hsuf.
  - change (String a s ++ String d t) with (String a (s ++ String d t)).
    rewrite HasSuffix_cons, IH, orb_false_r. apply String.eqb_neq. intros Heq.
    assert (all_bytes q (String a (s ++ String d t)) = true) as Hq
      by (by rewrite Heq).
    simpl in Hq. rewrite all_bytes_app in Hq. simpl in Hq. rewrite Hd in Hq.
    by rewrite !andb_false_r in Hq.
Qed.

End string_facts.

(* ===================================================================== *)
(** ** Facts about [filepath.Clean] and [filepath.Join] *)
(* ===================================================================== *)

Module filepath_facts.

Import strings filepath props string_facts.

Lemma clean_elems_app rooted elems elems' out :
  clean_elems rooted (elems ++ elems')%list out =
  clean_elems rooted elems' (clean_elems rooted elems out).
Proof.
  revert out. induction elems as [|e elems IH]; intros out; [done|].
  cbn [app clean_elems].
  destruct (String.eqb e EmptyString || String.eqb e "."); [apply IH|].
  destruct (String.eqb e ".."); [|apply IH].
  destruct out as [|top out]; [destruct rooted; apply IH|].
  destruct (String.eqb top ".."); apply IH.
Qed.

Lemma clean_elems_ordinary rooted elems out :
  Forall (fun e => ordinary e = true) elems ->
  clean_elems rooted elems out = (rev elems ++ out)%list.
Proof.
  intros Hall. revert out. induction Hall as [|e elems He Hall IH]; intros out; [done|].
  cbn [clean_elems rev]. unfold ordinary in He.
  apply andb_true_iff in He as [[He1 He2]%andb_true_iff He3].
  apply negb_true_iff in He1, He2, He3. rewrite He1, He2, He3. cbn [orb].
  rewrite IH. by rewrite <- app_assoc.
Qed.

Lemma clean_elems_solid rooted elems out :
  Forall solid out -> Forall solid (clean_elems rooted elems out).
Proof.
  revert out. induction elems as [|e elems IH]; intros out Hout; [done|].
  cbn [clean_elems].
  destruct (String.eqb_spec e EmptyString) as [->|He1]; [by apply IH|].
  destruct (String.eqb_spec e ".") as [->|He2]; [by apply IH|]. cbn [orb].
  destruct (String.eqb e "..").
  - destruct out as [|top out]; [destruct rooted; apply IH; [done|]; by repeat constructor|].
    destruct (String.eqb top "..").
    + apply IH. by constructor.
    + apply IH. by inversion Hout.
  - apply IH. by constructor.
Qed.

Lemma Join_solid_empty elems :
  Forall solid elems -> strings.Join elems "/" = EmptyString -> elems = [].
Proof.
  intros Hall. destruct Hall as [|e elems [He _] Hall]; [done|].
  destruct elems as [|e' elems]; [done|].
  change (strings.Join (e :: e' :: elems) "/") with (e ++ "/" ++ strings.Join (e' :: elems) "/").
  by destruct e.
Qed.

Lemma Join_solid_dot elems :
  Forall solid elems -> strings.Join elems "/" <> ".".
Proof.
  intros Hall Heq. destruct Hall as [|e elems [He1 He2] Hall]; [done|].
  destruct elems as [|e' elems]; [done|].
  change (strings.Join (e :: e' :: elems) "/") with (e ++ "/" ++ strings.Join (e' :: elems) "/") in Heq.
  destruct e as [|c e]; [done|]. injection Heq as -> Heq. by destruct e.
Qed.

Lemma prefix_nil s : String.prefix EmptyString s = true.
Proof. by destruct s. Qed.

Lemma HasPrefix_byte_app s t c :
  s <> EmptyString ->
  HasPrefix (s ++ t) (String c EmptyString) = HasPrefix s (String c EmptyString).
Proof.
  intros Hs. destruct s as [|d s]; [done|].
  unfold HasPrefix. change (String d s ++ t) with (String d (s ++ t)).
  cbn [String.prefix]. destruct (ascii_dec c d); [|done].
  by rewrite !prefix_nil.
Qed.

(** Joining a chain of ordinary elements onto a clean directory. *)
Lemma Join_onto_clean baseDir elems :
  filepath.Clean baseDir = baseDir ->
  elems <> [] ->
  Forall (fun e => ordinary e = true) elems ->
  Forall (fun e => all_bytes (fun c => negb (Ascii.eqb c sep)) e = true) elems ->
  let rel := strings.Join elems "/" in
  filepath.Join [baseDir; rel] =
    if String.eqb baseDir "/" then "/" ++ rel
    else if String.eqb baseDir "." then rel
    else baseDir ++ "/" ++ rel.
Proof.
  intros Hclean Hne Hord Hsep rel. unfold sep in *.
  assert (baseDir <> EmptyString) as Hbase.
  { intros ->. by vm_compute in Hclean. }
  assert (rel <> EmptyString) as Hrel.
  { subst rel. destruct elems as [|e elems]; [done|].
    inversion Hord as [|? ? He _]; subst.
    destruct e as [|c e]; [done|]. by destruct elems. }
  cbn [filepath.Join].
  destruct (String.eqb_spec baseDir EmptyString) as [?|_]; [done|].
  change (strings.Join [baseDir; rel] "/") with (baseDir ++ String "/" rel).
  revert Hclean. unfold Clean, sep.
  destruct (String.eqb_spec baseDir EmptyString) as [?|_]; [done|].
  destruct (String.eqb_spec (baseDir ++ String "/" rel) EmptyString) as [Hemp|_].
  { by destruct baseDir. }
  rewrite HasPrefix_byte_app by done.
  rewrite Split_app. subst rel.
  rewrite (Split_Join elems "/") by done.
  rewrite clean_elems_app, (clean_elems_ordinary _ elems) by done.
  rewrite rev_app_distr, rev_involutive.
  set (rel := strings.Join elems "/") in *.
  destruct (HasPrefix baseDir "/") eqn:Hrooted.
  - pose proof (clean_elems_solid true (Split baseDir "/") [] (List.Forall_nil _))
      as Hsolid.
    apply Forall_rev in Hsolid.
    destruct (rev (clean_elems true (Split baseDir "/") [])) as [|x X].
    + intros Hb. change ("/" ++ strings.Join [] "/") with "/" in Hb.
      by subst baseDir.
    + rewrite strings_Join_app by done. fold rel.
      pose proof (Join_solid_empty _ Hsolid) as Hnil.
      set (J := strings.Join (x :: X) "/") in *.
      assert (J <> EmptyString) as HJ by (intros HJ; by specialize (Hnil HJ)).
      intros <-.
      destruct (String.eqb_spec ("/" ++ J) "/") as [Heq|_].
      { destruct J; [done|]. discriminate Heq. }
      destruct (String.eqb_spec ("/" ++ J) ".") as [Heq|_]; [discriminate Heq|].
      by rewrite !append_assoc.
  - pose proof (clean_elems_solid false (Split baseDir "/") [] (List.Forall_nil _))
      as Hsolid.
    apply Forall_rev in Hsolid.
    destruct (rev (clean_elems false (Split baseDir "/") [])) as [|x X].
    + cbn [app strings.Join String.eqb]. intros <-. fold rel.
      cbn [String.eqb Ascii.eqb Bool.eqb].
      by destruct (String.eqb_spec rel EmptyString).
    + rewrite strings_Join_app by done. fold rel.
      pose proof (Join_solid_empty _ Hsolid) as Hnil.
      pose proof (Join_solid_dot _ Hsolid) as Hdot.
      set (J := strings.Join (x :: X) "/") in *.
      assert (J <> EmptyString) as HJ by (intros HJ; by specialize (Hnil HJ)).
      destruct (String.eqb_spec J EmptyString) as [?|_]; [done|].
      intros <-.
      destruct (String.eqb_spec (J ++ "/" ++ rel) EmptyString) as [Heq|_].
      { by destruct J. }
      destruct (String.eqb_spec J "/") as [Heq|_].
      { rewrite Heq in Hrooted. discriminate Hrooted. }
      by destruct (String.eqb_spec J ".").
Qed.

(** Whatever the directory, the joined path ends in the chain. *)
Lemma Join_onto_any baseDir elems :
  elems <> [] ->
  Forall (fun e => ordinary e = true) elems ->
  Forall (fun e => all_bytes (fun c => negb (Ascii.eqb c sep)) e = true) elems ->
  exists pre, filepath.Join [baseDir; strings.Join elems "/"] = pre ++ strings.Join elems "/".
Proof.
  intros Hne Hord Hsep. unfold sep in *.
  set (rel := strings.Join elems "/").
  assert (rel <> EmptyString /\ HasPrefix rel "/" = false) as [Hrel Hnoroot].
  { unfold rel. destruct elems as [|e elems]; [done|].
    inversion Hord as [|? ? He _]; inversion Hsep as [|? ? He' _]; subst.
    destruct e as [|c e]; [done|].
    cbn [all_bytes] in He'. apply andb_true_iff in He' as [Hc _].
    assert (HasPrefix (String c e) "/" = false) as Hp.
    { unfold HasPrefix. cbn [String.prefix].
      destruct (ascii_dec "/" c) as [<-|]; [done|done]. }
    destruct elems as [|e' elems]; [done|].
    change (strings.Join (String c e :: e' :: elems) "/")
      with (String c e ++ "/" ++ strings.Join (e' :: elems) "/").
    split; [done|]. by rewrite HasPrefix_byte_app. }
  cbn [filepath.Join].
  destruct (String.eqb_spec baseDir EmptyString) as [->|Hbase].
  - destruct (String.eqb_spec rel EmptyString) as [?|_]; [done|].
    change (strings.Join [rel] "/") with rel. exists EmptyString.
    unfold Clean, sep.
    destruct (String.eqb_spec rel EmptyString) as [?|_]; [done|].
    rewrite Hnoroot. unfold rel. rewrite (Split_Join elems "/") by done.
    rewrite clean_elems_ordinary, app_nil_r, rev_involutive by done.
    fold rel. by destruct (String.eqb_spec rel EmptyString).
  - change (strings.Join [baseDir; rel] "/") with (baseDir ++ String "/" rel).
    unfold Clean, sep.
    destruct (String.eqb_spec (baseDir ++ String "/" rel) EmptyString) as [Hemp|_].
    { by destruct baseDir. }
    rewrite HasPrefix_byte_app by done.
    rewrite Split_app. unfold rel.
    rewrite (Split_Join elems "/") by done.
    rewrite clean_elems_app, (clean_elems_ordinary _ elems) by done.
    rewrite rev_app_distr, rev_involutive. fold rel.
    set (X := rev (clean_elems (HasPrefix baseDir "/") (Split baseDir "/") [])).
    assert (exists pre, strings.Join (X ++ elems)%list "/" = pre ++ rel) as [pre Hpre].
    { destruct X as [|x X]; [by exists EmptyString|].
      rewrite strings_Join_app by done. fold rel.
      exists (strings.Join (x :: X) "/" ++ "/"). by rewrite append_assoc. }
    rewrite Hpre. destruct (HasPrefix baseDir "/").
    + exists ("/" ++ pre). by rewrite append_assoc.
    + exists pre. destruct (String.eqb_spec (pre ++ rel) EmptyString) as [Heq|_]; [|done].
      destruct pre; [done|discriminate Heq].
Qed.

End filepath_facts.

(* ===================================================================== *)
(** ** PathResolver: [isLocalModule] and [resolveModulePath] *)
(* ===================================================================== *)

Module resolver_facts.

Import regexp bundler props string_facts filepath_facts.

Lemma word_not c d : word d = false -> word c = true -> negb (Ascii.eqb c d) = true.
Proof.
  intros Hd Hc. destruct (Ascii.eqb_spec c d) as [->|]; [congruence|done].
Qed.

Lemma ident_start_word c : ident_start c = true -> word c = true.
Proof.
  unfold ident_start, word. intros [->| ->]%orb_true_iff; by rewrite ?orb_true_r.
Qed.

Lemma is_ident_word s : is_ident s = true -> all_bytes word s = true.
Proof.
  destruct s as [|c s]; [done|]. cbn [is_ident all_bytes].
  intros [Hc ->]%andb_true_iff. by rewrite (ident_start_word _ Hc).
Qed.

Lemma is_ident_ordinary s : is_ident s = true -> ordinary s = true.
Proof.
  intros Hs. pose proof (is_ident_word _ Hs) as Hw.
  destruct s as [|c s]; [done|]. unfold ordinary.
  destruct (String.eqb_spec (String c s) ".") as [[= -> ->]|_]; [done|].
  by destruct (String.eqb_spec (String c s) "..") as [[= -> ->]|_].
Qed.

(** The bytes of a dotted chain are word bytes and dots. *)
Lemma chain_bytes segs :
  Forall (fun s => is_ident s = true) segs ->
  all_bytes ident_rest (strings.Join segs ".") = true.
Proof.
  intros Hall. induction Hall as [|s segs Hs Hall IH]; [done|].
  assert (all_bytes ident_rest s = true) as Hs'.
  { apply (all_bytes_weaken word); [|by apply is_ident_word].
    intros c Hc. unfold ident_rest. by rewrite Hc. }
  destruct segs as [|s' segs]; [done|].
  change (strings.Join (s :: s' :: segs) ".")
    with (s ++ "." ++ strings.Join (s' :: segs) ".").
  by rewrite !all_bytes_app, Hs', IH.
Qed.

Lemma chain_replace segs :
  Forall (fun s => is_ident s = true) segs ->
  strings.ReplaceAll (strings.Join segs ".") "." "/" = strings.Join segs "/".
Proof.
  intros Hall. induction Hall as [|s segs Hs Hall IH]; [done|].
  assert (strings.ReplaceAll s "." "/" = s) as Hs'.
  { apply ReplaceAll_absent, (all_bytes_weaken word); [|by apply is_ident_word].
    intros c. by apply word_not. }
  destruct segs as [|s' segs]; [done|].
  change (strings.Join (s :: s' :: segs) ".")
    with (s ++ "." ++ strings.Join (s' :: segs) ".").
  change (strings.Join (s :: s' :: segs) "/")
    with (s ++ "/" ++ strings.Join (s' :: segs) "/").
  by rewrite !ReplaceAll_app, Hs', IH.
Qed.

(** A chain of at least two identifiers, cut before its last one. *)
Lemma chain_last (segs : list string) :
  2 <= length segs ->
  exists front last, front <> [] /\ segs = (front ++ [last])%list.
Proof.
  intros Hlen. destruct (exists_last (l := segs)) as (front & last & ->).
  { intros ->. simpl in Hlen. lia. }
  exists front, last. split; [|done].
  intros ->. simpl in Hlen. lia.
Qed.

(** No joined path whose last element is an identifier ends in ".lua". *)
Lemma chain_needs_extension pre (segs : list string) :
  2 <= length segs ->
  Forall (fun s => is_ident s = true) segs ->
  ensureLua (pre ++ strings.Join segs "/") = pre ++ strings.Join segs "/" ++ ".lua".
Proof.
  intros Hlen Hall. destruct (chain_last segs Hlen) as (front & last & Hfront & ->).
  apply Forall_app in Hall as [_ Hlast]. inversion Hlast as [|? ? Hl _]; subst.
  rewrite strings_Join_app by done.
  change (strings.Join [last] "/") with last.
  unfold ensureLua.
  replace (pre ++ strings.Join front "/" ++ "/" ++ last)
    with ((pre ++ strings.Join front "/") ++ String "/" last)
    by (by rewrite append_assoc).
  rewrite (HasSuffix_after_sep word (fun c => negb (Ascii.eqb c "/"))).
  - by rewrite !append_assoc.
  - done.
  - by apply is_ident_word.
  - done.
  - done.
Qed.

End resolver_facts.

(* ===================================================================== *)
(** ** The matcher finds every match *)
(* ===================================================================== *)

Module regexp_facts.

Import regexp props string_facts.

Lemma strip_prefix_app l s : strip_prefix l (l ++ s) = Some s.
Proof.
  induction l as [|a l IH]; [done|].
  change (String a l ++ s) with (String a (l ++ s)). cbn [strip_prefix].
  by rewrite Ascii.eqb_refl.
Qed.

Lemma star_complete {A} p l s (k : string -> option A) :
  all_bytes p l = true -> is_Some (k s) -> is_Some (star p (l ++ s) k).
Proof.
  intros Hl Hk. induction l as [|c l IH].
  - change (EmptyString ++ s) with s. destruct s as [|c s]; [done|].
    cbn [star]. destruct (p c); [|done]. by destruct (star p s k).
  - apply andb_true_iff in Hl as [Hc Hl].
    change (String c l ++ s) with (String c (l ++ s)). cbn [star]. rewrite Hc.
    destruct (IH Hl) as [r ->]. by eexists.
Qed.

(** Backtracking is complete: if some match of [r] lets the continuation
    succeed whatever the captures, the search succeeds. *)
Lemma run_complete {A} r s s' :
  Matches r s s' ->
  forall cs (k : string -> captures -> option A),
    (forall cs', is_Some (k s' cs')) -> is_Some (run r s cs k).
Proof.
  induction 1 as [l s|p c s Hc|p l s Hl|p c l s Hc Hl
                 |r1 r2 s s1 s2 _ IH1 _ IH2|r1 r2 s s' _ IH|r1 r2 s s' _ IH
                 |i r s s' _ IH]; intros cs k Hk; cbn [run].
  - by rewrite strip_prefix_app.
  - by rewrite Hc.
  - by apply star_complete.
  - rewrite Hc. by apply star_complete.
  - apply IH1. intros cs'. by apply IH2.
  - destruct (IH cs k Hk) as [res ->]. by eexists.
  - destruct (run r1 s cs k); [by eexists|]. by apply IH.
  - apply IH. intros cs'. apply Hk.
Qed.

Lemma search_complete r pre s s' :
  Matches r s s' -> is_Some (search r (pre ++ s)).
Proof.
  intros Hm.
  assert (is_Some (search r s)) as Hs.
  { destruct s as [|c s]; cbn [search]; unfold match_here.
    - destruct (run_complete (Group 0 r) _ _ (MGroup 0 _ _ _ Hm) no_captures
                  (fun _ cs => Some cs)) as [res ->]; by eauto.
    - destruct (run_complete (Group 0 r) _ _ (MGroup 0 _ _ _ Hm) no_captures
                  (fun _ cs => Some cs)) as [res ->]; by eauto. }
  induction pre as [|c pre IH]; [done|].
  change (String c pre ++ s) with (String c (pre ++ s)). cbn [search].
  by destruct (match_here r (String c (pre ++ s))).
Qed.

Lemma MatchString_complete r pre s s' :
  Matches r s s' -> MatchString r (pre ++ s) = true.
Proof.
  intros Hm. unfold MatchString.
  by destruct (search_complete r pre s s' Hm) as [cs ->].
Qed.

End regexp_facts.

(* ===================================================================== *)
(** ** What a run of [processFile] does *)
(* ===================================================================== *)

Module run_facts.

Import regexp bundler props.

(** What [downloadHTTP] can do to the bundler. *)
Lemma downloadHTTP_cases w url b :
  (exists content, downloadHTTP w url b = (ok content, b)) \/
  (exists err, downloadHTTP w url b = (fail err, emit (EvHttpGet url) b)) \/
  (exists content c, downloadHTTP w url b =
     (ok content, with_cache c (emit (EvHttpGet url) b))) \/
  (exists content, downloadHTTP w url b = (ok content, emit (EvHttpGet url) b)).
Proof.
  unfold downloadHTTP.
  destruct (cache.IsEnabled (cache_ b)) eqn:Hen.
  - destruct (cache.Get (cache_ b) url) as [[content [|]] [err|]]; eauto.
    all: cbn [cache_ emit]; rewrite ?Hen.
    all: destruct (HttpGet w url) as [resp|err']; eauto.
    all: destruct (negb (StatusCode resp =? StatusOK)%Z); eauto.
    all: destruct (Body resp); eauto 10.
  - cbn [cache_ emit]. rewrite ?Hen.
    destruct (HttpGet w url) as [resp|err']; eauto.
    destruct (negb (StatusCode resp =? StatusOK)%Z); eauto.
    destruct (Body resp); eauto 10.
Qed.

Section relational.

Variable w : World.
(** A relation between the bundler before, the outcome and the bundler
    after that every primitive step of the traversal respects. *)
Variable Q : Bundler -> outcome -> Bundler -> Prop.

Hypothesis Q_refl : forall b, Q b Ok b.
Hypothesis Q_trans : forall b b1 o b2, Q b Ok b1 -> Q b1 o b2 -> Q b o b2.
Hypothesis Q_fuel : forall b, Q b OutOfFuel b.
Hypothesis Q_scan : forall b filePath content, Q b Ok (emit (EvScan filePath content) b).
Hypothesis Q_fetch_fail : forall b url err b1,
  modules b !! url = None ->
  downloadHTTP w url b = (fail err, b1) -> Q b (Err err) b1.
Hypothesis Q_fetch_ok : forall b url content b1,
  modules b !! url = None ->
  downloadHTTP w url b = (ok content, b1) ->
  Q b Ok (store url content (with_httpModules <[url := true]> b1)).
Hypothesis Q_read_fail : forall b key path err,
  modules b !! key = None ->
  ReadFile w path = fail err ->
  Q b (Err ("failed to read file " ++ path ++ ": " ++ err)) (emit (EvReadFile key path) b).
Hypothesis Q_read_ok : forall b key path fileContent moduleContent,
  modules b !! key = None ->
  ReadFile w path = ok fileContent ->
  Q b Ok (store key moduleContent (emit (EvReadFile key path) b)).

Section body.

Variable self : string -> string -> Bundler -> outcome * Bundler.
Hypothesis self_rel : forall filePath content b,
  Q b (self filePath content b).1 (self filePath content b).2.

Lemma recurse_rel b0 filePath content b :
  Q b0 Ok b -> flow_rel Q b0 (recurse self filePath content b).
Proof.
  intros Hb. unfold recurse. pose proof (self_rel filePath content b) as Hs.
  destruct (self filePath content b) as [o b']. cbn [fst snd] in Hs.
  destruct o; cbn [flow_rel]; by eapply Q_trans.
Qed.

Lemma fetchRule_rel line b : flow_rel Q b (fetchRule w self line b).
Proof.
  unfold fetchRule.
  destruct (Nat.ltb 1 _); [|apply Q_refl].
  set (url := nth 1 _ _).
  destruct (modules b !! url) eqn:Hfresh; [apply Q_refl|].
  destruct (downloadHTTP w url b) as [[httpContent|err] b1] eqn:Hdl.
  - apply recurse_rel. by eapply Q_fetch_ok.
  - cbn [flow_rel]. by eapply Q_fetch_fail.
Qed.

Lemma requireRule_rel filePath line b : flow_rel Q b (requireRule w self filePath line b).
Proof.
  unfold requireRule.
  destruct (Nat.ltb 1 _); [|apply Q_refl].
  set (modulePath := requireLiteral _).
  destruct (_ && _); [|apply Q_refl].
  destruct (modules b !! modulePath) eqn:Hfresh; [apply Q_refl|].
  destruct (ReadFile w _) as [fileContent|err] eqn:Hread.
  - apply recurse_rel. by eapply Q_read_ok.
  - cbn [flow_rel]. by eapply Q_read_fail.
Qed.

Lemma loopBody_rel filePath line b : flow_rel Q b (loopBody w self filePath line b).
Proof.
  unfold loopBody. destruct (MatchString _ _); [apply Q_refl|].
  pose proof (fetchRule_rel line b) as Hf.
  destruct (fetchRule w self line b) as [b1|b1|o b1]; [|done..].
  pose proof (requireRule_rel filePath line b1) as Hr.
  destruct (requireRule w self filePath line b1); cbn [flow_rel] in *;
    by eapply Q_trans.
Qed.

Lemma forLines_rel filePath lines b :
  Q b (forLines w self filePath lines b).1 (forLines w self filePath lines b).2.
Proof.
  revert b. induction lines as [|line lines IH]; intros b; [apply Q_refl|].
  cbn [forLines]. pose proof (loopBody_rel filePath line b) as Hl.
  destruct (loopBody w self filePath line b) as [b1|b1|o b1]; cbn [flow_rel] in Hl.
  - eapply Q_trans; [exact Hl|apply IH].
  - eapply Q_trans; [exact Hl|apply IH].
  - done.
Qed.

End body.

Lemma processFile_rel fuel filePath content b :
  Q b (processFile w fuel filePath content b).1 (processFile w fuel filePath content b).2.
Proof.
  revert filePath content b. induction fuel as [|fuel IH]; intros filePath content b.
  - apply Q_fuel.
  - cbn [processFile]. eapply Q_trans; [apply Q_scan|].
    by apply forLines_rel.
Qed.

End relational.

Lemma effects_quiet b o evs :
  io_keys evs = [] -> store_keys evs = [] ->
  forall b', events b' = (events b ++ evs)%list -> modules b' = modules b ->
  effects b o b'.
Proof.
  intros Hio Hst b' Hev Hmod. exists evs. rewrite Hio, Hst, Hmod.
  repeat split; try done.
  - constructor.
  - constructor.
  - intros k [Hk|Hk]; by apply elem_of_nil in Hk.
  - intros _ k Hk. by apply elem_of_nil in Hk.
  - intros k Hk. by apply elem_of_nil in Hk.
Qed.

Lemma effects_refl b o : effects b o b.
Proof. apply (effects_quiet b o []); [done..|by rewrite app_nil_r|done]. Qed.

Lemma effects_trans b b1 o b2 : effects b Ok b1 -> effects b1 o b2 -> effects b o b2.
Proof.
  intros (new1 & Hev1 & Hio1 & Hst1 & Hfresh1 & Hin1 & Hstored1 & Hsub1)
         (new2 & Hev2 & Hio2 & Hst2 & Hfresh2 & Hin2 & Hstored2 & Hsub2).
  exists (new1 ++ new2)%list. unfold io_keys, store_keys in *. rewrite !omap_app.
  repeat split.
  - by rewrite Hev2, Hev1, app_assoc.
  - apply NoDup_app. repeat split; [done| |done].
    intros k Hk1 Hk2. destruct (Hin1 eq_refl k Hk1) as [v Hv].
    rewrite (Hfresh2 k) in Hv by auto. done.
  - apply NoDup_app. repeat split; [done| |done].
    intros k Hk1 Hk2. destruct (Hstored1 k Hk1) as [v Hv].
    rewrite (Hfresh2 k) in Hv by auto. done.
  - intros k Hk.
    assert ((k ∈ omap io_key new1 \/ k ∈ omap store_key new1) \/
            (k ∈ omap io_key new2 \/ k ∈ omap store_key new2)) as [Hk1|Hk2].
    { rewrite !elem_of_app in Hk. tauto. }
    + by apply Hfresh1.
    + specialize (Hfresh2 k Hk2).
      destruct (modules b !! k) as [v|] eqn:Hv; [|done].
      by rewrite (lookup_weaken _ _ _ _ Hv Hsub1) in Hfresh2.
  - intros -> k [Hk|Hk]%elem_of_app; [|by apply Hin2].
    destruct (Hin1 eq_refl k Hk) as [v Hv].
    exists v. by eapply lookup_weaken.
  - intros k [Hk|Hk]%elem_of_app; [|by apply Hstored2].
    destruct (Hstored1 k Hk) as [v Hv].
    exists v. by eapply lookup_weaken.
  - by etrans.
Qed.

(** A record is created for [key], after no or one read or fetch of it. *)
Lemma effects_store b o key value evs :
  modules b !! key = None ->
  io_keys evs = [] \/ io_keys evs = [key] ->
  store_keys evs = [key] ->
  forall b1, events b1 = (events b ++ evs)%list -> modules b1 = <[key := value]> (modules b) ->
  effects b o b1.
Proof.
  intros Hfresh Hio Hst b1 Hev Hmod. exists evs. rewrite Hmod, Hst.
  assert (forall k, k ∈ io_keys evs -> k = key) as Hkey.
  { intros k Hk. destruct Hio as [Hn|Hn]; rewrite Hn in Hk.
    - by apply elem_of_nil in Hk.
    - by apply list_elem_of_singleton in Hk. }
  repeat split; [done|..].
  - destruct Hio as [-> | ->]; [constructor|apply NoDup_singleton].
  - apply NoDup_singleton.
  - intros k [Hk|Hk].
    + by rewrite (Hkey k Hk).
    + by apply list_elem_of_singleton in Hk as ->.
  - intros _ k Hk. rewrite (Hkey k Hk), lookup_insert_eq. by eexists.
  - intros k Hk. apply list_elem_of_singleton in Hk as ->.
    rewrite lookup_insert_eq. by eexists.
  - by apply insert_subseteq.
Qed.

Lemma effects_fail b msg e k :
  modules b !! k = None -> io_key e = Some k -> store_key e = None ->
  effects b (Err msg) (emit e b).
Proof.
  intros Hfresh He Hst. exists [e].
  assert (io_keys [e] = [k]) as -> by (unfold io_keys; simpl; by rewrite He).
  assert (store_keys [e] = []) as -> by (unfold store_keys; simpl; by rewrite Hst).
  repeat split; [apply NoDup_singleton|constructor| |done| |done].
  - intros k' [Hk|Hk]; [|by apply elem_of_nil in Hk].
    by apply list_elem_of_singleton in Hk as ->.
  - intros k' Hk. by apply elem_of_nil in Hk.
Qed.

Lemma effects_scan b filePath content : effects b Ok (emit (EvScan filePath content) b).
Proof. by apply (effects_quiet b Ok [EvScan filePath content]). Qed.

Lemma effects_fetch_fail w b url err b1 :
  modules b !! url = None ->
  downloadHTTP w url b = (fail err, b1) -> effects b (Err err) b1.
Proof.
  intros Hfresh Hdl.
  destruct (downloadHTTP_cases w url b)
    as [(c & H)|[(e & H)|[(c & c' & H)|(c & H)]]]; rewrite H in Hdl; try done.
  simplify_eq. by apply (effects_fail _ _ _ url).
Qed.

Lemma effects_fetch_ok w b url body b1 :
  modules b !! url = None ->
  downloadHTTP w url b = (ok body, b1) ->
  effects b Ok (store url body (with_httpModules <[url := true]> b1)).
Proof.
  intros Hfresh Hdl.
  destruct (downloadHTTP_cases w url b)
    as [(c & H)|[(e & H)|[(c & c' & H)|(c & H)]]]; rewrite H in Hdl; try done;
    simplify_eq.
  - by apply (effects_store _ _ url body [EvStore url]); [|left|..].
  - apply (effects_store _ _ url body [EvHttpGet url; EvStore url]);
      [done|by right|done| |done].
    cbn [events store emit with_modules with_httpModules with_cache].
    by rewrite <- app_assoc.
  - apply (effects_store _ _ url body [EvHttpGet url; EvStore url]);
      [done|by right|done| |done].
    cbn [events store emit with_modules with_httpModules with_cache].
    by rewrite <- app_assoc.
Qed.

Lemma effects_read_ok b key path moduleContent :
  modules b !! key = None ->
  effects b Ok (store key moduleContent (emit (EvReadFile key path) b)).
Proof.
  intros Hfresh.
  apply (effects_store _ _ key moduleContent [EvReadFile key path; EvStore key]);
    [done|by right|done| |done].
  cbn [events store emit with_modules]. by rewrite <- app_assoc.
Qed.

(** The loop has these effects as soon as the recursive call has them. *)
Lemma forLines_effects w self filePath lines b :
  (forall p c b0, effects b0 (self p c b0).1 (self p c b0).2) ->
  effects b (forLines w self filePath lines b).1 (forLines w self filePath lines b).2.
Proof.
  intros Hself. apply (forLines_rel w effects); try done.
  - intros b0. apply effects_refl.
  - apply effects_trans.
  - apply effects_fetch_fail.
  - apply effects_fetch_ok.
  - intros b0 key path err Hfresh _. by apply (effects_fail _ _ _ key).
  - intros b0 key path fc mc Hfresh _. by apply effects_read_ok.
Qed.

(** Every run of [processFile], whatever its outcome, has these effects. *)
Lemma processFile_effects w fuel filePath content b :
  effects b (processFile w fuel filePath content b).1
            (processFile w fuel filePath content b).2.
Proof.
  revert filePath content b. induction fuel as [|fuel IH]; intros filePath content b.
  - apply effects_refl.
  - cbn [processFile]. eapply effects_trans; [apply effects_scan|].
    by apply forLines_effects.
Qed.

End run_facts.

(* ===================================================================== *)
(** ** Termination of the traversal *)
(* ===================================================================== *)

Module termination.

Import regexp bundler props run_facts.

Section bounded.

Variable w : World.
Variable K : gset string.
Hypothesis Hclosed : closed w K.

Lemma downloadHTTP_closed url b r b1 :
  cache_closed K b -> downloadHTTP w url b = (r, b1) ->
  cache_closed K b1 /\ modules b1 = modules b /\
  (forall content, r = ok content -> scannable K content).
Proof.
  intros Hc. unfold downloadHTTP.
  assert (forall content,
    (if cache.IsEnabled (cache_ b)
     then match cache.Get (cache_ b) url with
          | (content, true, None) => Some content
          | _ => None
          end
     else None) = Some content -> scannable K content) as Hhit.
  { intros content. destruct (cache.IsEnabled (cache_ b)); [|done].
    unfold cache.Get. destruct (getFails (cache_ b) url); [done|].
    destruct (entries (cache_ b) !! url) eqn:He; [|done].
    intros [= <-]. by eapply Hc. }
  destruct (if cache.IsEnabled (cache_ b) then _ else _) as [cached|].
  { intros [= <- <-]. repeat split; [done|]. intros content [= <-]. by apply Hhit. }
  clear Hhit. destruct (HttpGet w url) as [resp|err] eqn:Hget.
  2: { intros [= <- <-]. by repeat split. }
  destruct (negb _).
  { intros [= <- <-]. by repeat split. }
  destruct (Body resp) as [contentStr|err] eqn:Hbody.
  2: { intros [= <- <-]. by repeat split. }
  assert (scannable K contentStr) as Hs by (by eapply closed_web).
  cbn [cache_ emit]. destruct (cache.IsEnabled (cache_ b)).
  2: { intros [= <- <-]. repeat split; [done|]. by intros content [= <-]. }
  intros [= <- <-]. repeat split; [|by intros content [= <-]].
  unfold cache.Set_. cbn [cache_ emit].
  destruct (setFails (cache_ b) url contentStr); cbn [snd]; [done|].
  intros url' content. unfold cache_closed, with_cache. cbn [cache_ entries].
  destruct (decide (url = url')) as [<-|Hne].
  - rewrite lookup_insert_eq. by intros [= <-].
  - rewrite lookup_insert_ne by done. apply Hc.
Qed.

Lemma processFile_cache_closed fuel filePath content b :
  cache_closed K b -> cache_closed K (processFile w fuel filePath content b).2.
Proof.
  apply (processFile_rel w (fun b _ b' => cache_closed K b -> cache_closed K b'));
    try done.
  - intros b0 b1 o b2 H1 H2 H0. auto.
  - intros b0 url err b1 _ Hdl Hc. by destruct (downloadHTTP_closed _ _ _ _ Hc Hdl).
  - intros b0 url body b1 _ Hdl Hc. by destruct (downloadHTTP_closed _ _ _ _ Hc Hdl).
Qed.

Lemma pending_mono b b' : modules b ⊆ modules b' -> pending K b' <= pending K b.
Proof.
  intros Hsub. unfold pending. apply subseteq_size.
  apply subseteq_dom in Hsub. set_solver.
Qed.

Lemma pending_insert b b' k v :
  k ∈ K -> modules b !! k = None -> modules b' = <[k := v]> (modules b) ->
  pending K b' < pending K b.
Proof.
  intros HK Hfresh Hmod. unfold pending. apply subset_size. rewrite Hmod, dom_insert_L.
  apply not_elem_of_dom in Hfresh. set_solver.
Qed.

Section body.

Variable fuel : nat.
Variable self : string -> string -> Bundler -> outcome * Bundler.
Hypothesis self_effects : forall filePath content b,
  effects b (self filePath content b).1 (self filePath content b).2.
Hypothesis self_cache : forall filePath content b,
  cache_closed K b -> cache_closed K (self filePath content b).2.
Hypothesis self_terminates : forall filePath content b,
  cache_closed K b -> scannable K content -> pending K b < fuel ->
  (self filePath content b).1 <> OutOfFuel.

Lemma recurse_ok b0 filePath content b :
  cache_closed K b -> scannable K content -> pending K b < fuel ->
  modules b0 ⊆ modules b ->
  flow_ok K b0 (recurse self filePath content b).
Proof.
  intros Hc Hs Hp Hsub. unfold recurse.
  pose proof (self_terminates filePath content b Hc Hs Hp) as Hfuel.
  pose proof (self_cache filePath content b Hc) as Hc'.
  destruct (self_effects filePath content b) as (_ & _ & _ & _ & _ & _ & _ & Hsub').
  destruct (self filePath content b) as [o b']. cbn [fst snd] in *.
  destruct o; cbn [flow_ok]; try done. split; [done|by etrans].
Qed.

Lemma fetchRule_ok line b :
  (forall k, k ∈ line_keys line -> k ∈ K) ->
  cache_closed K b -> pending K b <= fuel ->
  flow_ok K b (fetchRule w self line b).
Proof.
  intros Hkeys Hc Hp. unfold fetchRule.
  destruct (Nat.ltb 1 _) eqn:Hlen; [|done].
  set (url := nth 1 _ _).
  assert (url ∈ K) as HK.
  { apply Hkeys. unfold line_keys. rewrite Hlen. set_solver. }
  destruct (modules b !! url) eqn:Hfresh; [done|].
  destruct (downloadHTTP w url b) as [[httpContent|err] b1] eqn:Hdl; [|done].
  destruct (downloadHTTP_closed _ _ _ _ Hc Hdl) as (Hc1 & Hmod & Hs).
  apply recurse_ok.
  - done.
  - by apply Hs.
  - eapply Nat.lt_le_trans; [|exact Hp].
    apply (pending_insert _ _ url httpContent); [done..|].
    cbn [modules store emit with_modules with_httpModules]. by rewrite Hmod.
  - cbn [modules store emit with_modules with_httpModules]. rewrite Hmod.
    by apply insert_subseteq.
Qed.

Lemma requireRule_ok filePath line b :
  (forall k, k ∈ line_keys line -> k ∈ K) ->
  cache_closed K b -> pending K b <= fuel ->
  flow_ok K b (requireRule w self filePath line b).
Proof.
  intros Hkeys Hc Hp. unfold requireRule.
  destruct (Nat.ltb 1 _) eqn:Hlen; [|done].
  set (modulePath := requireLiteral _).
  assert (modulePath ∈ K) as HK.
  { apply Hkeys. unfold line_keys. rewrite Hlen. set_solver. }
  destruct (_ && _); [|done].
  destruct (modules b !! modulePath) eqn:Hfresh; [done|].
  destruct (ReadFile w _) as [fileContent|err] eqn:Hread; [|done].
  apply recurse_ok.
  - done.
  - by eapply closed_files.
  - eapply Nat.lt_le_trans; [|exact Hp].
    by eapply (pending_insert _ _ modulePath).
  - by apply insert_subseteq.
Qed.

Lemma forLines_ok filePath lines b :
  (forall line k, line ∈ lines -> k ∈ line_keys line -> k ∈ K) ->
  cache_closed K b -> pending K b <= fuel ->
  (forLines w self filePath lines b).1 <> OutOfFuel.
Proof.
  revert b. induction lines as [|line lines IH]; intros b Hkeys Hc Hp; [done|].
  assert (forall k, k ∈ line_keys line -> k ∈ K) as Hline.
  { intros k. apply Hkeys. by left. }
  assert (forall line' k, line' ∈ lines -> k ∈ line_keys line' -> k ∈ K) as Hrest.
  { intros line' k Hin. apply Hkeys. by right. }
  cbn [forLines]. unfold loopBody.
  destruct (MatchString _ _); [by apply IH|].
  pose proof (fetchRule_ok line b Hline Hc Hp) as Hf.
  destruct (fetchRule w self line b) as [b1|b1|o b1]; cbn [flow_ok] in Hf.
  - destruct Hf as [Hc1 Hsub1].
    assert (pending K b1 <= fuel) as Hp1 by (etrans; [by apply pending_mono|done]).
    pose proof (requireRule_ok filePath line b1 Hline Hc1 Hp1) as Hr.
    destruct (requireRule w self filePath line b1) as [b2|b2|o b2];
      cbn [flow_ok] in Hr; [| |done].
    + destruct Hr as [Hc2 Hsub2]. apply IH; [done..|].
      etrans; [by apply pending_mono|done].
    + destruct Hr as [Hc2 Hsub2]. apply IH; [done..|].
      etrans; [by apply pending_mono|done].
  - destruct Hf as [Hc1 Hsub1]. apply IH; [done..|].
    etrans; [by apply pending_mono|done].
  - done.
Qed.

End body.

End bounded.

Lemma scannable_lines K content line k :
  scannable K content -> line ∈ strings.Split content newline ->
  k ∈ line_keys line -> k ∈ K.
Proof.
  intros Hs Hline Hk. apply Hs. unfold content_keys.
  apply list_elem_of_In, in_concat. exists (line_keys line).
  split; [|by apply list_elem_of_In].
  apply in_map. by apply list_elem_of_In.
Qed.

(** With more fuel than references missing from the table, the traversal
    does not run out of fuel. *)
Lemma processFile_enough_fuel w K :
  closed w K ->
  forall fuel filePath content b,
    cache_closed K b -> scannable K content -> pending K b < fuel ->
    (processFile w fuel filePath content b).1 <> OutOfFuel.
Proof.
  intros Hclosed. induction fuel as [|fuel IH]; intros filePath content b Hc Hs Hp.
  - lia.
  - cbn [processFile].
    apply (forLines_ok w K Hclosed fuel).
    + intros. apply processFile_effects.
    + intros. by apply processFile_cache_closed.
    + exact IH.
    + intros line k. by apply scannable_lines.
    + done.
    + unfold pending in *. cbn [modules emit]. lia.
Qed.

(** *** More fuel does not change a finished run *)

Section agree.

Variable w : World.
Variables self self' : string -> string -> Bundler -> outcome * Bundler.
Hypothesis self_agree : forall filePath content b,
  (self filePath content b).1 <> OutOfFuel ->
  self' filePath content b = self filePath content b.

Lemma recurse_agree filePath content b :
  finished (recurse self filePath content b) ->
  recurse self' filePath content b = recurse self filePath content b.
Proof.
  unfold recurse. pose proof (self_agree filePath content b) as Ha.
  destruct (self filePath content b) as [o b1]. cbn [fst] in Ha.
  destruct o; cbn [finished]; intros Hf; by rewrite ?Ha.
Qed.

Lemma fetchRule_agree line b :
  finished (fetchRule w self line b) ->
  fetchRule w self' line b = fetchRule w self line b.
Proof.
  unfold fetchRule. destruct (Nat.ltb 1 _); [|done].
  destruct (modules b !! _); [done|].
  destruct (downloadHTTP w _ b) as [[httpContent|err] b1]; [|done].
  apply recurse_agree.
Qed.

Lemma requireRule_agree filePath line b :
  finished (requireRule w self filePath line b) ->
  requireRule w self' filePath line b = requireRule w self filePath line b.
Proof.
  unfold requireRule. destruct (Nat.ltb 1 _); [|done].
  destruct (_ && _); [|done].
  destruct (modules b !! _); [done|].
  destruct (ReadFile w _); [|done].
  apply recurse_agree.
Qed.

Lemma forLines_agree filePath lines b :
  (forLines w self filePath lines b).1 <> OutOfFuel ->
  forLines w self' filePath lines b = forLines w self filePath lines b.
Proof.
  revert b. induction lines as [|line lines IH]; intros b; [done|].
  cbn [forLines]. unfold loopBody.
  destruct (MatchString _ _); [apply IH|].
  pose proof (fetchRule_agree line b) as Hf.
  destruct (fetchRule w self line b) as [b1|b1|o b1].
  - rewrite Hf by done.
    pose proof (requireRule_agree filePath line b1) as Hr.
    destruct (requireRule w self filePath line b1) as [b2|b2|o b2].
    + rewrite Hr by done. apply IH.
    + rewrite Hr by done. apply IH.
    + intros Ho. rewrite Hr; [done|]. by destruct o.
  - rewrite Hf by done. apply IH.
  - intros Ho. rewrite Hf; [done|]. by destruct o.
Qed.

End agree.

Lemma processFile_fuel_S w fuel filePath content b :
  (processFile w fuel filePath content b).1 <> OutOfFuel ->
  processFile w (S fuel) filePath content b = processFile w fuel filePath content b.
Proof.
  revert filePath content b. induction fuel as [|fuel IH]; intros filePath content b.
  - done.
  - intros Hfin. cbn [processFile] in *. by apply forLines_agree.
Qed.

Lemma processFile_fuel_le w fuel fuel' filePath content b :
  fuel <= fuel' ->
  (processFile w fuel filePath content b).1 <> OutOfFuel ->
  processFile w fuel' filePath content b = processFile w fuel filePath content b.
Proof.
  intros Hle Hfin. induction Hle as [|fuel' Hle IH]; [done|].
  rewrite processFile_fuel_S; [done|]. by rewrite IH.
Qed.

End termination.

(* ===================================================================== *)
(** ** The claims of the specification *)
(* ===================================================================== *)

Import regexp bundler props samples.
Import string_facts filepath_facts resolver_facts regexp_facts run_facts termination.

Lemma Contains_byte_false s c :
  strings.Contains s (String c EmptyString) = false ->
  all_bytes (fun d => negb (Ascii.eqb d c)) s = true.
Proof.
  induction s as [|d s IH]; [done|].
  cbn [strings.Contains String.prefix all_bytes].
  intros [Hd Hs]%orb_false_iff. rewrite (IH Hs), andb_true_r.
  destruct (ascii_dec c d) as [->|Hne].
  - by rewrite prefix_nil in Hd.
  - destruct (Ascii.eqb_spec d c); [congruence|done].
Qed.

(** C6, as the code has it: a reference with no dot and no slash is
    classified Local unless it contains the separator "::" or is one of
    the reserved host names. *)
Theorem isLocalModule_plain_name (modulePath : string) :
  strings.Contains modulePath "." = false ->
  strings.Contains modulePath "/" = false ->
  strings.Contains modulePath "::" = false ->
  ~ In modulePath externalPrefixes ->
  isLocalModule modulePath = true.
Proof.
  intros Hdot Hslash Hsep Hres. unfold isLocalModule.
  rewrite Hsep, Hdot, Hslash.
  rewrite (Split_absent modulePath ".") by (by apply Contains_byte_false).
  cbn [hd].
  destruct (existsb (String.eqb modulePath) externalPrefixes) eqn:Hex.
  - apply existsb_exists in Hex as (p & Hin & ->%String.eqb_eq). done.
  - by rewrite !orb_true_r.
Qed.

Lemma isLocalModule_plain_name_witness : isLocalModule "localmodule" = true.
Proof.
  apply isLocalModule_plain_name; try reflexivity.
  cbv [externalPrefixes In]. intros H.
  repeat (destruct H as [H|H]; [discriminate H|]). exact H.
Defined.

(** C6 fails as stated: neither of these has a dot or a slash, and both
    are classified External. *)
Lemma isLocalModule_plain_name_external :
  (strings.Contains "a::b" "." = false /\ strings.Contains "a::b" "/" = false /\
   isLocalModule "a::b" = false) /\
  (strings.Contains "game" "." = false /\ strings.Contains "game" "/" = false /\
   isLocalModule "game" = false).
Proof. by vm_compute. Qed.

(** C8: a chain of two or more identifiers joined by dots resolves,
    whatever the current file, to [filepath.Join] of the base directory and
    the chain with every dot turned into a slash, with the extension
    appended; for a base directory in clean form, as [filepath.Dir] and
    [os.Getwd] give it, that is base/a/b/c.lua. *)
Theorem resolveModulePath_dot_chain (baseDir currentFile : string) (segs : list string) :
  2 <= length segs ->
  Forall (fun s => is_ident s = true) segs ->
  let rel := strings.Join segs "/" in
  resolveModulePath baseDir currentFile (strings.Join segs ".") =
    filepath.Join [baseDir; rel] ++ ".lua" /\
  (filepath.Clean baseDir = baseDir ->
   resolveModulePath baseDir currentFile (strings.Join segs ".") =
     if String.eqb baseDir "/" then "/" ++ rel ++ ".lua"
     else if String.eqb baseDir "." then rel ++ ".lua"
     else baseDir ++ "/" ++ rel ++ ".lua").
Proof.
  intros Hlen Hall rel.
  pose proof (chain_bytes segs Hall) as Hbytes.
  assert (segs <> []) as Hne by (intros ->; simpl in Hlen; lia).
  assert (Forall (fun e => ordinary e = true) segs) as Hord.
  { eapply Forall_impl; [exact Hall|]. apply is_ident_ordinary. }
  assert (Forall (fun e => all_bytes (fun c => negb (Ascii.eqb c filepath.sep)) e = true) segs)
    as Hsep.
  { eapply Forall_impl; [exact Hall|]. intros s Hs.
    apply (all_bytes_weaken word); [|by apply is_ident_word].
    intros c. by apply word_not. }
  assert (resolveModulePath baseDir currentFile (strings.Join segs ".") =
          ensureLua (filepath.Join [baseDir; rel])) as ->.
  { unfold resolveModulePath.
    rewrite (Trim_id ident_rest) by (done || (intros c Hc; cbn [strings.in_cutset quotes];
      destruct (Ascii.eqb_spec c "'") as [->|_]; [done|];
      destruct (Ascii.eqb_spec c dquote) as [->|_]; done)).
    rewrite (HasPrefix_absent ident_rest) by done.
    rewrite (Contains_absent ident_rest "/") by done.
    rewrite (Contains_absent ident_rest ":") by done.
    destruct (chain_last segs Hlen) as (front & last & Hfront & Heq).
    assert (strings.Contains (strings.Join segs ".") "." = true) as ->.
    { rewrite Heq, strings_Join_app by done. apply (Contains_here _ "."). }
    cbn [andb negb]. by rewrite chain_replace. }
  assert (forall pre, ensureLua (pre ++ rel) = pre ++ rel ++ ".lua") as Hext.
  { intros pre. by apply chain_needs_extension. }
  assert (ensureLua (filepath.Join [baseDir; rel]) = filepath.Join [baseDir; rel] ++ ".lua")
    as Hany.
  { destruct (Join_onto_any baseDir segs Hne Hord Hsep) as [pre Hpre].
    fold rel in Hpre. by rewrite Hpre, Hext, append_assoc. }
  split; [done|]. intros Hclean. rewrite Hany.
  pose proof (Join_onto_clean baseDir segs Hclean Hne Hord Hsep) as HJ.
  cbv zeta in HJ. fold rel in HJ. rewrite HJ.
  destruct (String.eqb baseDir "/"); [done|].
  destruct (String.eqb baseDir "."); [done|].
  by rewrite !append_assoc.
Qed.

Lemma resolveModulePath_dot_chain_witness :
  resolveModulePath "/base" "/base/tasks/main.lua" "a.b.c" = "/base/a/b/c.lua".
Proof.
  pose proof (resolveModulePath_dot_chain "/base" "/base/tasks/main.lua" ["a"; "b"; "c"])
    as H.
  destruct H as [_ H].
  - simpl. lia.
  - repeat constructor.
  - exact (H eq_refl).
Defined.

(** C4: in every run, the events [new] it adds to the trace read or fetch
    each key at most once and create a record for each key at most once,
    they touch no key the table already had, and no record already in the
    table is changed or removed. *)
Theorem one_read_or_fetch_per_key (w : World) (fuel : nat) (filePath content : string)
    (b : Bundler) :
  let b' := (processFile w fuel filePath content b).2 in
  exists new,
    events b' = (events b ++ new)%list /\
    NoDup (io_keys new) /\
    NoDup (store_keys new) /\
    (forall k, k ∈ io_keys new \/ k ∈ store_keys new -> modules b !! k = None) /\
    (forall k v, modules b !! k = Some v -> modules b' !! k = Some v).
Proof.
  destruct (processFile_effects w fuel filePath content b)
    as (new & Hev & Hio & Hst & Hfresh & _ & _ & Hsub).
  exists new. repeat split; try done.
  intros k v Hk. by eapply lookup_weaken.
Qed.

(** The same literal in two files: main and a both require shared, which
    is read once. *)
Example shared_module_read_once :
  let w := offline [("/proj/a.lua", text ["local s = require('shared')"]);
                    ("/proj/shared.lua", "return {}")] in
  let r := processFile w 3 "/proj/main.lua"
             (text ["local a = require('a')"; "local s = require('shared')"]) session in
  r.1 = Ok /\ io_keys (events r.2) = ["a"; "shared"] /\
  store_keys (events r.2) = ["a"; "shared"].
Proof. by vm_compute. Qed.


Lemma cycle_closed : closed cycle {[ "a"; "b" ]}.
Proof.
  split.
  - intros path content. cbn [ReadFile cycle offline lookup_file].
    destruct (String.eqb _ path); [|destruct (String.eqb _ path); [|done]].
    all: intros [= <-] k; vm_compute; set_solver.
  - done.
Qed.


(** The state a nested run ends in: it starts by recording the scan. *)
Lemma recurse_scans w fuel filePath content b :
  let b' := flow_state (recurse (processFile w (S fuel)) filePath content b) in
  modules b ⊆ modules b' /\
  exists rest, events b' = (events b ++ EvScan filePath content :: rest)%list.
Proof.
  unfold recurse. cbn [processFile].
  destruct (forLines_effects w (processFile w fuel) filePath
              (strings.Split content newline) (emit (EvScan filePath content) b)
              (processFile_effects w fuel))
    as (rest & Hev & _ & _ & _ & _ & _ & Hsub).
  destruct (forLines _ _ _ _ _) as [o b']. cbn [fst snd] in *.
  assert (flow_state match o with Ok => Next b' | _ => Return o b' end = b') as ->
    by (by destruct o).
  split; [done|]. exists rest. rewrite Hev. cbn [events emit].
  by rewrite <- app_assoc.
Qed.

(** C1, as the code has it: when the require rule discovers a Local module
    with obfuscation on, the obfuscated text is what the table stores, and
    the scan that follows the read is of the file content as read. *)
Theorem local_module_scanned_as_read (w : World) (fuel : nat)
    (filePath line modulePath fileContent : string) (b : Bundler)
    (obf : string -> string) :
  let matches := FindStringSubmatch requireRegex line in
  let resolvedPath := resolveModulePath (baseDir b) filePath modulePath in
  1 < length matches ->
  requireLiteral matches = modulePath ->
  modulePath <> EmptyString ->
  isLocalModule modulePath = true ->
  modules b !! modulePath = None ->
  ReadFile w resolvedPath = ok fileContent ->
  obfuscator b = Some obf ->
  (0 < obfuscateLevel b)%Z ->
  let b' := flow_state (requireRule w (processFile w (S fuel)) filePath line b) in
  modules b' !! modulePath = Some (obf fileContent) /\
  exists rest,
    events b' = (events b ++ EvReadFile modulePath resolvedPath ::
                             EvStore modulePath ::
                             EvScan resolvedPath fileContent :: rest)%list.
Proof.
  intros matches resolvedPath Hlen Hlit Hne Hlocal Hfresh Hread Hobf Hlevel.
  unfold requireRule. fold matches.
  apply Nat.ltb_lt in Hlen. rewrite Hlen, Hlit, Hlocal.
  apply String.eqb_neq in Hne. rewrite Hne. cbn [negb andb].
  rewrite Hfresh. fold resolvedPath. rewrite Hread.
  cbn [obfuscator obfuscateLevel emit]. rewrite Hobf.
  apply Z.ltb_lt in Hlevel. rewrite Hlevel.
  match goal with |- context [recurse _ _ _ ?b1] =>
    destruct (recurse_scans w fuel resolvedPath fileContent b1) as [Hsub (rest & Hev)]
  end.
  cbv zeta. split.
  - eapply lookup_weaken; [|exact Hsub]. cbn [modules store with_modules emit].
    apply lookup_insert_eq.
  - exists rest. rewrite Hev. cbn [events store with_modules emit].
    by rewrite <- !app_assoc.
Qed.

Lemma local_module_scanned_as_read_witness :
  let b' := flow_state (requireRule obfuscated.world (processFile obfuscated.world 1)
                          "/proj/main.lua" "local m = require('m')" obfuscated.session2) in
  modules b' !! "m" = Some (obfuscated.banner obfuscated.m_lua) /\
  exists rest,
    events b' = ([] ++ EvReadFile "m" "/proj/m.lua" :: EvStore "m" ::
                       EvScan "/proj/m.lua" obfuscated.m_lua :: rest)%list.
Proof.
  apply (local_module_scanned_as_read obfuscated.world 0 "/proj/main.lua"
           "local m = require('m')" "m" obfuscated.m_lua obfuscated.session2
           obfuscated.banner).
  - vm_compute. lia.
  - reflexivity.
  - discriminate.
  - reflexivity.
  - reflexivity.
  - reflexivity.
  - reflexivity.
  - reflexivity.
Defined.

(** C1 fails as stated: the text stored for m is the obfuscated one, and
    the text scanned for m is the one read from the file. *)
Lemma obfuscated_text_is_not_scanned :
  let r := processFile obfuscated.world 2 "/proj/main.lua" "local m = require('m')"
             obfuscated.session2 in
  r.1 = Ok /\
  modules r.2 !! "m" = Some (text ["-- obfuscated"; "return 1"]) /\
  events r.2 = [EvScan "/proj/main.lua" "local m = require('m')";
                EvReadFile "m" "/proj/m.lua";
                EvStore "m";
                EvScan "/proj/m.lua" "return 1"] /\
  text ["-- obfuscated"; "return 1"] <> "return 1".
Proof. by vm_compute. Qed.

(** C2, as the code has it: a reference the require rule extracts and
    [isLocalModule] rejects is left alone, with no fetch, no read and no
    record. Fetching is the business of the fetch rule: a URL it extracts
    that the table lacks goes through [downloadHTTP], whose error ends the
    run, and whose text is stored as it came and flagged in [httpModules]
    before the recursion. *)
Theorem external_require_is_ignored (w : World)
    (self : string -> string -> Bundler -> outcome * Bundler)
    (filePath line : string) (b : Bundler) :
  (isLocalModule (requireLiteral (FindStringSubmatch requireRegex line)) = false ->
   requireRule w self filePath line b = Next b) /\
  (forall url,
     1 < length (FindStringSubmatch httpGetRegex line) ->
     nth 1 (FindStringSubmatch httpGetRegex line) EmptyString = url ->
     modules b !! url = None ->
     match downloadHTTP w url b with
     | (fail err, b1) => fetchRule w self line b = Return (Err err) b1
     | (ok httpContent, b1) =>
         exists b2,
           fetchRule w self line b = recurse self url httpContent b2 /\
           modules b2 !! url = Some httpContent /\
           httpModules b2 !! url = Some true /\
           events b2 = (events b1 ++ [EvStore url])%list
     end).
Proof.
  split.
  - intros Hext. unfold requireRule. rewrite Hext, andb_false_r.
    by destruct (Nat.ltb 1 _).
  - intros url Hlen Hurl Hfresh. unfold fetchRule.
    apply Nat.ltb_lt in Hlen. rewrite Hlen, Hurl, Hfresh.
    destruct (downloadHTTP w url b) as [[httpContent|err] b1]; [|done].
    eexists. split; [done|].
    cbn [modules httpModules events store emit with_modules with_httpModules].
    by rewrite !lookup_insert_eq.
Qed.

Lemma external_require_is_ignored_witness :
  requireRule online.world (processFile online.world 1) "/proj/main.lua"
    "local ws = require('game.Workspace')" session = Next session.
Proof.
  apply (proj1 (external_require_is_ignored online.world (processFile online.world 1)
                  "/proj/main.lua" "local ws = require('game.Workspace')" session)).
  reflexivity.
Defined.

(** C2 fails as stated: game.Workspace is extracted by the require rule
    and classified External, the host would serve it, and the run neither
    fetches nor stores anything. *)
Lemma external_require_not_fetched :
  let line := "local ws = require('game.Workspace')" in
  let r := processFile online.world 2 "/proj/main.lua" line session in
  requireLiteral (FindStringSubmatch requireRegex line) = "game.Workspace" /\
  isLocalModule "game.Workspace" = false /\
  r.1 = Ok /\ modules r.2 = ∅ /\ httpModules r.2 = ∅ /\
  events r.2 = [EvScan "/proj/main.lua" line].
Proof. by vm_compute. Qed.

(** C3 at its failing input. The second line repeats a URL the first line
    fetched and also requires m: the duplicate makes the loop move on and m
    is never read. On its own, the same line fetches the URL and reads m. *)

Theorem duplicate_fetch_skips_require :
  let r := processFile duplicate.world 2 "/proj/main.lua"
             (text [duplicate.fetch_line; duplicate.both_line]) session in
  let r' := processFile duplicate.world 2 "/proj/main.lua" duplicate.both_line session in
  MatchString funcCallHttpGetRegex duplicate.both_line = false /\
  requireLiteral (FindStringSubmatch requireRegex duplicate.both_line) = "m" /\
  (r.1 = Ok /\ modules r.2 !! "m" = None /\ io_keys (events r.2) = ["http://h/lib.lua"]) /\
  (r'.1 = Ok /\ modules r'.2 !! "m" = Some "return 1" /\
   io_keys (events r'.2) = ["http://h/lib.lua"; "m"]).
Proof. by vm_compute. Qed.

(** C7, as the code has it: a cache hit is returned without a request.
    Otherwise the call fails exactly when the request fails, the status is
    not 200, or the body cannot be read, with a message made of the URL and
    the cause; a 200 with a readable body returns that body whether or not
    the cache accepts it. *)
Theorem downloadHTTP_outcomes (w : World) (url : string) (b : Bundler) :
  let hit content :=
    cache.IsEnabled (cache_ b) = true /\
    cache.Get (cache_ b) url = (content, true, None) in
  (forall content, hit content -> downloadHTTP w url b = (ok content, b)) /\
  ((forall content, ~ hit content) ->
   (downloadHTTP w url b).1 =
     match HttpGet w url with
     | fail cause => fail ("failed to download " ++ url ++ ": " ++ cause)
     | ok resp =>
         if Z.eqb (StatusCode resp) 200 then
           match Body resp with
           | fail cause => fail ("failed to read response from " ++ url ++ ": " ++ cause)
           | ok contentStr => ok contentStr
           end
         else fail ("failed to download " ++ url ++ ": status " ++ fmt_d (StatusCode resp))
     end).
Proof.
  cbv zeta. split.
  - intros content [Hen Hget]. unfold downloadHTTP. by rewrite Hen, Hget.
  - intros Hmiss. unfold downloadHTTP.
    destruct (cache.IsEnabled (cache_ b)) eqn:Hen.
    + destruct (cache.Get (cache_ b) url) as [[content [|]] [err|]] eqn:Hget.
      all: try (by destruct (Hmiss content)).
      all: cbn [cache_ emit]; rewrite ?Hen.
      all: destruct (HttpGet w url) as [resp|cause]; [|done].
      all: unfold StatusOK; destruct (Z.eqb (StatusCode resp) 200); [|done].
      all: by destruct (Body resp).
    + cbn [cache_ emit]. rewrite ?Hen.
      destruct (HttpGet w url) as [resp|cause]; [|done].
      unfold StatusOK; destruct (Z.eqb (StatusCode resp) 200); [|done].
      by destruct (Body resp).
Qed.

Lemma downloadHTTP_outcomes_witness :
  (downloadHTTP online.world "http://h/lib.lua"
     (with_cache statuses.readOnlyCache session)).1 = ok "return {}".
Proof.
  apply (proj2 (downloadHTTP_outcomes online.world "http://h/lib.lua"
                  (with_cache statuses.readOnlyCache session))).
  intros content [_ Hget]. discriminate Hget.
Defined.

(** C7 fails as stated: 204 is a 2xx status and the call fails on it. *)
Lemma downloadHTTP_rejects_204 :
  (200 <= 204 < 300)%Z /\
  (downloadHTTP statuses.no_content "http://h/lib.lua" session).1 =
    fail "failed to download http://h/lib.lua: status 204".
Proof. split; [lia|by vm_compute]. Qed.

Lemma guarded_matches pre ident ws1 inner ws2 ws3 post :
  ident <> EmptyString ->
  all_bytes word ident = true ->
  all_bytes space ws1 = true ->
  all_bytes not_rparen inner = true ->
  all_bytes space ws2 = true ->
  all_bytes space ws3 = true ->
  MatchString funcCallHttpGetRegex (guarded pre ident ws1 inner ws2 ws3 post) = true.
Proof.
  intros Hne Hident Hws1 Hinner Hws2 Hws3.
  destruct ident as [|c ident]; [done|].
  apply andb_true_iff in Hident as [Hc Hident].
  unfold guarded. apply (MatchString_complete _ pre _ post).
  unfold funcCallHttpGetRegex.
  repeat eapply MSeq.
  - change (String c ident ++ ?x) with (String c (ident ++ x)). by apply MPlus.
  - by apply MStar.
  - apply MLit.
  - by apply MStar.
  - apply MLit.
  - by apply MStar.
  - apply MLit.
  - by apply MStar.
  - apply MLit.
Qed.

(** C9: a line in which a word, blanks and an opening parenthesis come,
    with no closing parenthesis between, before loadstring(game:HttpGet is
    skipped whole, whatever else it holds and whether or not the nested
    call is live code: the loop body hands the bundler on untouched, so
    nothing is fetched, read or stored for the line. *)
Theorem guarded_line_is_skipped (w : World)
    (self : string -> string -> Bundler -> outcome * Bundler)
    (filePath : string) (lines : list string) (b : Bundler)
    (pre ident ws1 inner ws2 ws3 post : string) :
  ident <> EmptyString ->
  all_bytes word ident = true ->
  all_bytes space ws1 = true ->
  all_bytes not_rparen inner = true ->
  all_bytes space ws2 = true ->
  all_bytes space ws3 = true ->
  let line := guarded pre ident ws1 inner ws2 ws3 post in
  loopBody w self filePath line b = Continue b /\
  forLines w self filePath (line :: lines) b = forLines w self filePath lines b.
Proof.
  intros Hne Hident Hws1 Hinner Hws2 Hws3 line.
  assert (loopBody w self filePath line b = Continue b) as Hbody.
  { unfold loopBody, line. by rewrite guarded_matches. }
  split; [done|]. cbn [forLines]. by rewrite Hbody.
Qed.

(** Live code, not a string argument: the fetch is the argument of pcall
    and a module is required on the same line. *)
Lemma guarded_line_is_skipped_witness :
  let line := "local ok = pcall(loadstring(game:HttpGet('http://h/lib.lua'))) local m = require('m')" in
  loopBody duplicate.world (processFile duplicate.world 1) "/proj/main.lua" line session
    = Continue session /\
  forLines duplicate.world (processFile duplicate.world 1) "/proj/main.lua" [line] session
    = forLines duplicate.world (processFile duplicate.world 1) "/proj/main.lua" [] session.
Proof.
  apply (guarded_line_is_skipped duplicate.world (processFile duplicate.world 1)
           "/proj/main.lua" [] session
           "local ok = " "pcall" EmptyString EmptyString EmptyString EmptyString
           "('http://h/lib.lua'))) local m = require('m')").
  - discriminate.
  - reflexivity.
  - reflexivity.
  - reflexivity.
  - reflexivity.
  - reflexivity.
Defined.

(** The whole run: the script is fetched, scanned under its URL, and its
    sibling is looked for under the URL's directory. *)
Example remote_run :
  let r := processFile remote.world 2 "/proj/main.lua" remote.fetch_line session in
  r.1 = Err "failed to read file https:/example.com/lib/util.lua: open https:/example.com/lib/util.lua: no such file or directory" /\
  events r.2 = [EvScan "/proj/main.lua" remote.fetch_line;
                EvHttpGet remote.url;
                EvStore remote.url;
                EvScan remote.url "local util = require('./util')";
                EvReadFile "./util" "https:/example.com/lib/util.lua"].
Proof. by vm_compute. Qed.

(* ===================================================================== *)
(** ** Further properties of the path functions *)
(* ===================================================================== *)

Module path_facts.

Import strings filepath regexp bundler props string_facts filepath_facts.

Lemma Contains_byte_none s c :
  Contains s (String c EmptyString) = false ->
  all_bytes (fun d => negb (Ascii.eqb d c)) s = true.
Proof.
  induction s as [|d s IH]; [done|].
  cbn [Contains String.prefix all_bytes].
  intros [Hd Hs]%orb_false_iff. rewrite (IH Hs), andb_true_r.
  destruct (ascii_dec c d) as [->|Hne].
  - by rewrite prefix_nil in Hd.
  - destruct (Ascii.eqb_spec d c); [congruence|done].
Qed.

Lemma HasSuffix_refl s : HasSuffix s s = true.
Proof. destruct s; cbn [HasSuffix]; by rewrite String.eqb_refl. Qed.

Lemma HasSuffix_length s suf :
  HasSuffix s suf = true -> String.length suf <= String.length s.
Proof.
  induction s as [|c s IH].
  - destruct suf; [done|discriminate].
  - rewrite HasSuffix_cons. intros [Heq|Hs]%orb_true_iff.
    + apply String.eqb_eq in Heq. by rewrite Heq.
    + specialize (IH Hs). simpl. lia.
Qed.

Lemma HasSuffix_app s t suf : HasSuffix t suf = true -> HasSuffix (s ++ t) suf = true.
Proof.
  intros Ht. induction s as [|c s IH]; [done|].
  change (String c s ++ t) with (String c (s ++ t)).
  rewrite HasSuffix_cons, IH. apply orb_true_r.
Qed.

Lemma ensureLua_suffix path : HasSuffix (ensureLua path) ".lua" = true.
Proof.
  unfold ensureLua. destruct (HasSuffix path ".lua") eqn:H; [done|].
  apply HasSuffix_app, HasSuffix_refl.
Qed.

(** The last element of a split text carries every suffix of the text
    that has no separator in it. *)
Lemma Split_last_suffix s sep suf :
  suf <> EmptyString ->
  all_bytes (fun c => negb (Ascii.eqb c sep)) suf = true ->
  HasSuffix s suf = true ->
  exists front last, Split s sep = (front ++ [last])%list /\ HasSuffix last suf = true.
Proof.
  intros Hne Hsuf. induction s as [|c s IH]; intros Hs.
  - destruct suf; [done|discriminate Hs].
  - rewrite HasSuffix_cons in Hs. apply orb_true_iff in Hs as [Heq|Hs].
    + apply String.eqb_eq in Heq. exists [], suf. rewrite Heq.
      rewrite Split_absent by done. split; [done|apply HasSuffix_refl].
    + destruct (IH Hs) as (front & last & Hsplit & Hlast).
      cbn [Split]. rewrite Hsplit. destruct (Ascii.eqb c sep).
      * exists (EmptyString :: front), last. by split.
      * destruct front as [|e front]; cbn [app].
        -- exists [], (String c last). split; [done|].
           rewrite HasSuffix_cons, Hlast. apply orb_true_r.
        -- exists (String c e :: front), last. by split.
Qed.

Lemma strings_Join_last front last :
  exists pre, strings.Join (front ++ [last])%list "/" = pre ++ last.
Proof.
  destruct front as [|e front]; [by exists EmptyString|].
  rewrite strings_Join_app by done. cbn [strings.Join].
  exists (strings.Join (e :: front) "/" ++ "/"). by rewrite append_assoc.
Qed.

(** [Clean] keeps a last element that it does not read as a step. *)
Lemma Clean_keeps_suffix path suf :
  String.length suf >= 3 ->
  all_bytes (fun c => negb (Ascii.eqb c "/")) suf = true ->
  HasSuffix path suf = true ->
  HasSuffix (Clean path) suf = true.
Proof.
  intros Hlen Hsuf Hpath.
  assert (suf <> EmptyString) as Hne by (intros ->; simpl in Hlen; lia).
  destruct (Split_last_suffix path "/" suf Hne Hsuf Hpath)
    as (front & last & Hsplit & Hlast).
  assert (ordinary last = true) as Hord.
  { pose proof (HasSuffix_length _ _ Hlast) as Hl. unfold ordinary.
    destruct (String.eqb_spec last EmptyString) as [->|_]; [simpl in Hl; lia|].
    destruct (String.eqb_spec last ".") as [->|_]; [simpl in Hl; lia|].
    destruct (String.eqb_spec last "..") as [->|_]; [simpl in Hl; lia|done]. }
  unfold Clean.
  destruct (String.eqb_spec path EmptyString) as [->|_].
  { destruct suf; [done|discriminate Hpath]. }
  unfold sep. rewrite Hsplit, clean_elems_app.
  rewrite (clean_elems_ordinary _ [last]) by (by constructor).
  cbn [rev app].
  destruct (strings_Join_last (rev (clean_elems (HasPrefix path "/") front [])) last)
    as [pre Hpre].
  rewrite Hpre.
  assert (HasSuffix (pre ++ last) suf = true) as Hs by (by apply HasSuffix_app).
  destruct (HasPrefix path "/").
  - change ("/" ++ pre ++ last) with (String "/" (pre ++ last)).
    rewrite HasSuffix_cons, Hs. apply orb_true_r.
  - destruct (String.eqb_spec (pre ++ last) EmptyString) as [Heq|_]; [|done].
    rewrite Heq in Hs. destruct suf; [done|discriminate Hs].
Qed.

Lemma TrimLeft_cut q s cutset :
  all_bytes (fun c => in_cutset c cutset) q = true ->
  TrimLeft (q ++ s) cutset = TrimLeft s cutset.
Proof.
  induction q as [|c q IH]; [done|].
  cbn [all_bytes]. intros [Hc Hq]%andb_true_iff.
  change (String c q ++ s) with (String c (q ++ s)). cbn [TrimLeft].
  rewrite Hc. by apply IH.
Qed.

Lemma TrimRight_all_cut q cutset :
  all_bytes (fun c => in_cutset c cutset) q = true -> TrimRight q cutset = EmptyString.
Proof.
  induction q as [|c q IH]; [done|].
  cbn [all_bytes TrimRight]. intros [Hc Hq]%andb_true_iff.
  by rewrite (IH Hq), Hc.
Qed.

Lemma TrimRight_cut s q cutset :
  all_bytes (fun c => in_cutset c cutset) q = true ->
  TrimRight (s ++ q) cutset = TrimRight s cutset.
Proof.
  intros Hq. induction s as [|c s IH].
  - by apply TrimRight_all_cut.
  - change (String c s ++ q) with (String c (s ++ q)). cbn [TrimRight].
    by rewrite IH.
Qed.

Lemma Trim_cut q1 s q2 cutset :
  all_bytes (fun c => in_cutset c cutset) q1 = true ->
  all_bytes (fun c => in_cutset c cutset) q2 = true ->
  Trim (q1 ++ s ++ q2) cutset = Trim s cutset.
Proof.
  intros H1 H2. unfold Trim. rewrite (TrimLeft_cut q1) by done.
  induction s as [|c s IH].
  - change (EmptyString ++ q2) with q2.
    assert (TrimLeft q2 cutset = EmptyString) as ->; [|done].
    clear -H2. induction q2 as [|c q IH]; [done|].
    cbn [all_bytes] in H2. apply andb_true_iff in H2 as [Hc Hq].
    cbn [TrimLeft]. rewrite Hc. by apply IH.
  - change (String c s ++ q2) with (String c (s ++ q2)). cbn [TrimLeft].
    destruct (in_cutset c cutset); [done|].
    change (String c (s ++ q2)) with (String c s ++ q2).
    by apply TrimRight_cut.
Qed.

(** The six-way test after the two guards of [isLocalModule] is always
    true. *)
Lemma isLocalModule_guards modulePath :
  isLocalModule modulePath =
    negb (Contains modulePath "::") &&
    negb (existsb (String.eqb (hd EmptyString (Split modulePath "."))) externalPrefixes).
Proof.
  unfold isLocalModule.
  destruct (Contains modulePath "::"); [done|].
  destruct (existsb _ externalPrefixes); [done|]. cbn [negb andb].
  destruct (Contains modulePath "."), (Contains modulePath "/");
    cbn [negb andb orb]; by rewrite ?orb_true_r.
Qed.

End path_facts.

(* ===================================================================== *)
(** ** Further properties of [downloadHTTP], [NewBundler] and the command *)
(* ===================================================================== *)

Module session_facts.

Import strings filepath regexp bundler bundle cmd props account string_facts.

(** What [downloadHTTP] returns and leaves behind when the cache has
    nothing to give. *)
Lemma downloadHTTP_miss w url b :
  (cache.IsEnabled (cache_ b) = false \/
   forall content, cache.Get (cache_ b) url <> (content, true, None)) ->
  downloadHTTP w url b =
    (fetched w url,
     match fetched w url with
     | ok body =>
         if cache.IsEnabled (cache_ b)
         then with_cache (cache.Set_ (cache_ b) url body).2 (emit (EvHttpGet url) b)
         else emit (EvHttpGet url) b
     | fail _ => emit (EvHttpGet url) b
     end).
Proof.
  intros Hmiss. unfold downloadHTTP, fetched.
  assert ((if cache.IsEnabled (cache_ b)
           then match cache.Get (cache_ b) url with
                | (content, true, None) => Some content
                | _ => None
                end
           else None) = None) as ->.
  { destruct Hmiss as [-> | Hmiss]; [done|].
    destruct (cache.IsEnabled (cache_ b)); [|done].
    destruct (cache.Get (cache_ b) url) as [[content [|]] [err|]] eqn:Hget; try done.
    by destruct (Hmiss content). }
  destruct (HttpGet w url) as [resp|cause]; [|done].
  unfold StatusOK. destruct (Z.eqb (StatusCode resp) 200); [|done]. cbn [negb].
  destruct (Body resp); [|done]. cbn [cache_ emit].
  by destruct (cache.IsEnabled (cache_ b)).
Qed.

Lemma upto_last_sep_none path :
  Contains path "/" = false -> upto_last_sep path = EmptyString.
Proof. intros H. destruct path; [done|]. cbn [upto_last_sep]. by rewrite H. Qed.

Lemma first_bytes_prefix n s :
  exists rest, s = first_bytes n s ++ rest /\
               String.length (first_bytes n s) = Nat.min n (String.length s).
Proof.
  revert s. induction n as [|n IH]; intros s.
  - exists s. by destruct s.
  - destruct s as [|c s]; [by exists EmptyString|].
    destruct (IH s) as (rest & Hrest & Hlen). exists rest. cbn [first_bytes].
    change (String c (first_bytes n s) ++ rest) with (String c (first_bytes n s ++ rest)).
    split; [by rewrite <- Hrest|]. simpl. by rewrite Hlen.
Qed.

Lemma printLevel_clamp level :
  exists name, printLevel level = (if Z.ltb 0 level then clampLevel level else level, Some name).
Proof.
  unfold printLevel, clampLevel. destruct (Z.ltb_spec 0 level); [|by eexists].
  destruct (Z.ltb_spec 3 level); [by eexists|].
  assert (level = 1 \/ level = 2 \/ level = 3)%Z as [-> | [-> | ->]] by lia; by eexists.
Qed.

(** The footprint of [downloadHTTP]. *)
Lemma downloadHTTP_effect (w : World) (url : string) (b : Bundler) :
  let r := downloadHTTP w url b in
  modules r.2 = modules b /\ httpModules r.2 = httpModules b /\
  same_settings b r.2 /\
  (events r.2 = events b \/ events r.2 = (events b ++ [EvHttpGet url])%list) /\
  ((forall body, r.1 <> ok body) -> cache_ r.2 = cache_ b) /\
  (cache.IsEnabled (cache_ b) = false ->
   cache_ r.2 = cache_ b /\ events r.2 = (events b ++ [EvHttpGet url])%list).
Proof.
  cbv zeta. unfold downloadHTTP, same_settings.
  assert (forall (r : result string * Bundler) c,
    modules r.2 = modules b -> httpModules r.2 = httpModules b ->
    baseDir r.2 = baseDir b -> entryFile r.2 = entryFile b -> verbose r.2 = verbose b ->
    obfuscator r.2 = obfuscator b -> obfuscateLevel r.2 = obfuscateLevel b ->
    cache_ r.2 = c -> enabled c = enabled (cache_ b) ->
    (events r.2 = events b \/ events r.2 = (events b ++ [EvHttpGet url])%list) ->
    ((forall body, r.1 <> ok body) -> c = cache_ b) ->
    (cache.IsEnabled (cache_ b) = false ->
     c = cache_ b /\ events r.2 = (events b ++ [EvHttpGet url])%list) ->
    modules r.2 = modules b /\ httpModules r.2 = httpModules b /\
    (baseDir r.2 = baseDir b /\ entryFile r.2 = entryFile b /\ verbose r.2 = verbose b /\
     obfuscator r.2 = obfuscator b /\ obfuscateLevel r.2 = obfuscateLevel b /\
     enabled (cache_ r.2) = enabled (cache_ b)) /\
    (events r.2 = events b \/ events r.2 = (events b ++ [EvHttpGet url])%list) /\
    ((forall body, r.1 <> ok body) -> cache_ r.2 = cache_ b) /\
    (cache.IsEnabled (cache_ b) = false ->
     cache_ r.2 = cache_ b /\ events r.2 = (events b ++ [EvHttpGet url])%list)) as Hpack.
  { intros r c ? ? ? ? ? ? ? <- ? ? ? ?. tauto. }
  destruct (cache.IsEnabled (cache_ b)) eqn:Hen.
  - destruct (cache.Get (cache_ b) url) as [[content [|]] [err|]].
    2: { apply (Hpack _ (cache_ b)); try done; by left. }
    all: cbn [cache_ emit]; rewrite ?Hen.
    all: destruct (HttpGet w url) as [resp|cause];
      [|apply (Hpack _ (cache_ b)); try done; by right].
    all: destruct (negb _); [apply (Hpack _ (cache_ b)); try done; by right|].
    all: destruct (Body resp) as [contentStr|cause];
      [|apply (Hpack _ (cache_ b)); try done; by right].
    all: apply (Hpack _ (cache.Set_ (cache_ b) url contentStr).2); try done;
      [unfold cache.Set_; by destruct (setFails _ _ _)|by right
      |intros H; by destruct (H contentStr)].
  - cbn [cache_ emit]. rewrite ?Hen.
    destruct (HttpGet w url) as [resp|cause];
      [|apply (Hpack _ (cache_ b)); try done; by right].
    destruct (negb _); [apply (Hpack _ (cache_ b)); try done; by right|].
    destruct (Body resp); apply (Hpack _ (cache_ b)); try done; by right.
Qed.

Lemma downloadHTTP_hit_or_miss w url b :
  (exists content, downloadHTTP w url b = (ok content, b)) \/
  (exists b1,
     downloadHTTP w url b = (fetched w url, b1) /\
     events b1 = (events b ++ [EvHttpGet url])%list /\
     modules b1 = modules b /\ httpModules b1 = httpModules b /\
     same_settings b b1).
Proof.
  destruct (cache.IsEnabled (cache_ b)) eqn:Hen.
  - destruct (cache.Get (cache_ b) url) as [[content [|]] [err|]] eqn:Hget.
    2: { left. exists content. unfold downloadHTTP. by rewrite Hen, Hget. }
    all: right; eexists; split;
      [apply downloadHTTP_miss; right; intros c; rewrite Hget; congruence|].
    all: rewrite Hen; unfold same_settings, cache.Set_;
      destruct (fetched w url) as [body|msg]; [destruct (setFails _ _ _)|]; done.
  - right. eexists. split; [apply downloadHTTP_miss; by left|].
    rewrite Hen. unfold same_settings. by destruct (fetched w url).
Qed.

End session_facts.

(* ===================================================================== *)
(** ** The account of a run *)
(* ===================================================================== *)

Module account_facts.

Import regexp bundler bundle props account run_facts session_facts.

Section exact.

Variable w : World.
(** As [processFile_rel], with the stored text of a Local module as the
    code computes it. *)
Variable Q : Bundler -> outcome -> Bundler -> Prop.

Hypothesis Q_refl : forall b, Q b Ok b.
Hypothesis Q_trans : forall b b1 o b2, Q b Ok b1 -> Q b1 o b2 -> Q b o b2.
Hypothesis Q_fuel : forall b, Q b OutOfFuel b.
Hypothesis Q_scan : forall b filePath content, Q b Ok (emit (EvScan filePath content) b).
Hypothesis Q_fetch_fail : forall b url err b1,
  modules b !! url = None ->
  downloadHTTP w url b = (fail err, b1) -> Q b (Err err) b1.
Hypothesis Q_fetch_ok : forall b url content b1,
  modules b !! url = None ->
  downloadHTTP w url b = (ok content, b1) ->
  Q b Ok (store url content (with_httpModules <[url := true]> b1)).
Hypothesis Q_read_fail : forall b key path err,
  modules b !! key = None ->
  ReadFile w path = fail err ->
  Q b (Err ("failed to read file " ++ path ++ ": " ++ err)) (emit (EvReadFile key path) b).
Hypothesis Q_read_ok : forall b key path fileContent,
  modules b !! key = None ->
  ReadFile w path = ok fileContent ->
  Q b Ok (store key (maybeObfuscate b fileContent) (emit (EvReadFile key path) b)).

Section body.

Variable self : string -> string -> Bundler -> outcome * Bundler.
Hypothesis self_rel : forall filePath content b,
  Q b (self filePath content b).1 (self filePath content b).2.

Lemma recurse_exact b0 filePath content b :
  Q b0 Ok b -> flow_rel Q b0 (recurse self filePath content b).
Proof.
  intros Hb. unfold recurse. pose proof (self_rel filePath content b) as Hs.
  destruct (self filePath content b) as [o b']. cbn [fst snd] in Hs.
  destruct o; cbn [flow_rel]; by eapply Q_trans.
Qed.

Lemma fetchRule_exact line b : flow_rel Q b (fetchRule w self line b).
Proof.
  unfold fetchRule.
  destruct (Nat.ltb 1 _); [|apply Q_refl].
  set (url := nth 1 _ _).
  destruct (modules b !! url) eqn:Hfresh; [apply Q_refl|].
  destruct (downloadHTTP w url b) as [[httpContent|err] b1] eqn:Hdl.
  - apply recurse_exact. by eapply Q_fetch_ok.
  - cbn [flow_rel]. by eapply Q_fetch_fail.
Qed.

Lemma requireRule_exact filePath line b : flow_rel Q b (requireRule w self filePath line b).
Proof.
  unfold requireRule.
  destruct (Nat.ltb 1 _); [|apply Q_refl].
  set (modulePath := requireLiteral _).
  destruct (_ && _); [|apply Q_refl].
  destruct (modules b !! modulePath) eqn:Hfresh; [apply Q_refl|].
  destruct (ReadFile w _) as [fileContent|err] eqn:Hread.
  - apply recurse_exact. exact (Q_read_ok b modulePath _ fileContent Hfresh Hread).
  - cbn [flow_rel]. by eapply Q_read_fail.
Qed.

Lemma forLines_exact filePath lines b :
  Q b (forLines w self filePath lines b).1 (forLines w self filePath lines b).2.
Proof.
  revert b. induction lines as [|line lines IH]; intros b; [apply Q_refl|].
  cbn [forLines]. unfold loopBody.
  destruct (MatchString _ _); [apply IH|].
  pose proof (fetchRule_exact line b) as Hf.
  destruct (fetchRule w self line b) as [b1|b1|o b1]; cbn [flow_rel] in Hf.
  - pose proof (requireRule_exact filePath line b1) as Hr.
    destruct (requireRule w self filePath line b1) as [b2|b2|o b2];
      cbn [flow_rel] in Hr.
    + eapply Q_trans; [by eapply Q_trans|apply IH].
    + eapply Q_trans; [by eapply Q_trans|apply IH].
    + by eapply Q_trans.
  - eapply Q_trans; [exact Hf|apply IH].
  - done.
Qed.

End body.

Lemma processFile_exact fuel filePath content b :
  Q b (processFile w fuel filePath content b).1 (processFile w fuel filePath content b).2.
Proof.
  revert filePath content b. induction fuel as [|fuel IH]; intros filePath content b.
  - apply Q_fuel.
  - cbn [processFile]. eapply Q_trans; [apply Q_scan|].
    by apply forLines_exact.
Qed.

End exact.

Lemma same_settings_refl b : same_settings b b.
Proof. by repeat split. Qed.

Lemma same_settings_trans b b1 b2 :
  same_settings b b1 -> same_settings b1 b2 -> same_settings b b2.
Proof. unfold same_settings. intros (?&?&?&?&?&?) (?&?&?&?&?&?). repeat split; congruence. Qed.

Lemma maybeObfuscate_settings b b1 text :
  same_settings b b1 -> maybeObfuscate b1 text = maybeObfuscate b text.
Proof. intros (_&_&_&Ho&Hl&_). unfold maybeObfuscate. by rewrite Ho, Hl. Qed.

Lemma subseteq_None (m m' : gmap string string) k :
  m ⊆ m' -> m' !! k = None -> m !! k = None.
Proof.
  intros Hsub Hk. destruct (m !! k) as [v|] eqn:Hv; [|done].
  by rewrite (lookup_weaken _ _ _ _ Hv Hsub) in Hk.
Qed.

Lemma subseteq_is_Some (m m' : gmap string string) k :
  m ⊆ m' -> is_Some (m !! k) -> is_Some (m' !! k).
Proof. intros Hsub [v Hv]. exists v. by eapply lookup_weaken. Qed.

(** A step that adds events without a read, a request or a store and
    leaves the tables alone. *)
Lemma accounted_quiet w b o evs b' :
  events b' = (events b ++ evs)%list ->
  same_settings b b' -> modules b' = modules b -> httpModules b' = httpModules b ->
  (forall e, e ∈ evs -> exists p c, e = EvScan p c) ->
  (forall msg, o <> Err msg) ->
  accounted w b o b'.
Proof.
  intros Hev Hset Hmod Hhttp Hscan Hok. exists evs.
  split; [done|]. split; [done|]. split; [by rewrite Hmod|].
  split; [intros k; left; by rewrite Hhttp|].
  split; [intros k path Hin; by destruct (Hscan _ Hin) as (?&?&?)|].
  split; [intros url Hin; by destruct (Hscan _ Hin) as (?&?&?)|].
  split; [intros k Hin; by destruct (Hscan _ Hin) as (?&?&?)|].
  intros msg Ho. by destruct (Hok msg).
Qed.

Lemma accounted_refl w b : accounted w b Ok b.
Proof.
  apply (accounted_quiet w b Ok []);
    [by rewrite app_nil_r|exact (same_settings_refl b)|done|done| |done].
  intros e He. by apply elem_of_nil in He.
Qed.

Lemma accounted_fuel w b : accounted w b OutOfFuel b.
Proof.
  apply (accounted_quiet w b OutOfFuel []);
    [by rewrite app_nil_r|exact (same_settings_refl b)|done|done| |done].
  intros e He. by apply elem_of_nil in He.
Qed.

Lemma accounted_scan w b filePath content :
  accounted w b Ok (emit (EvScan filePath content) b).
Proof.
  apply (accounted_quiet w b Ok [EvScan filePath content]);
    [done|exact (same_settings_refl b)|done|done| |done].
  intros e ->%list_elem_of_singleton. by eexists _, _.
Qed.

Lemma accounted_trans w b b1 o b2 :
  accounted w b Ok b1 -> accounted w b1 o b2 -> accounted w b o b2.
Proof.
  intros (new1 & Hev1 & Hset1 & Hsub1 & Hflag1 & Hread1 & Hget1 & Hstore1 & Hfail1)
         (new2 & Hev2 & Hset2 & Hsub2 & Hflag2 & Hread2 & Hget2 & Hstore2 & Hfail2).
  assert (forall k, is_Some (modules b1 !! k) ->
                    httpModules b2 !! k = httpModules b1 !! k) as Hkeep2.
  { intros k [v Hv]. destruct (Hflag2 k) as [E|(N & _)]; [done|congruence]. }
  assert (forall k, modules b1 !! k = None ->
                    httpModules b1 !! k = httpModules b !! k) as Hkeep1.
  { intros k Hk. destruct (Hflag1 k) as [E|(_ & [v Hv] & _)]; [done|congruence]. }
  exists (new1 ++ new2)%list.
  split; [by rewrite Hev2, Hev1, app_assoc|].
  split; [by eapply same_settings_trans|].
  split; [by etrans|].
  split.
  { intros k. destruct (Hflag2 k) as [E2|(N2 & S2 & T2)].
    - destruct (Hflag1 k) as [E1|(N1 & S1 & T1)].
      + left. congruence.
      + right. repeat split; [done|by eapply subseteq_is_Some|congruence].
    - right. repeat split; [by eapply subseteq_None|done..]. }
  split.
  { intros k path [Hin|Hin]%elem_of_app.
    - destruct (Hread1 k path Hin) as (N & F & M).
      destruct (ReadFile w path) as [fileContent|cause]; [|discriminate M].
      split; [done|]. split.
      + rewrite Hkeep2; [done|by eexists].
      + by eapply lookup_weaken.
    - destruct (Hread2 k path Hin) as (N & F & M).
      split; [by eapply subseteq_None|]. split.
      + by rewrite F, Hkeep1.
      + destruct (ReadFile w path); [|done].
        by rewrite <- (maybeObfuscate_settings b b1). }
  split.
  { intros url [Hin|Hin]%elem_of_app.
    - destruct (Hget1 url Hin) as (N & M).
      destruct (fetched w url) as [body|msg]; [|discriminate M].
      destruct M as [M T]. split; [done|]. split.
      + by eapply lookup_weaken.
      + rewrite Hkeep2; [done|by eexists].
    - destruct (Hget2 url Hin) as (N & M).
      split; [by eapply subseteq_None|done]. }
  split.
  { intros k [Hin|Hin]%elem_of_app.
    - destruct (Hstore1 k Hin) as (S & D). split; [by eapply subseteq_is_Some|].
      destruct D as [(path & Hp)|T].
      + left. exists path. apply elem_of_app. by left.
      + right. by rewrite Hkeep2.
    - destruct (Hstore2 k Hin) as (S & D). split; [done|].
      destruct D as [(path & Hp)|T]; [|by right].
      left. exists path. apply elem_of_app. by right. }
  intros msg Ho. destruct (Hfail2 msg Ho) as (before & e & -> & He).
  exists (new1 ++ before)%list, e. by rewrite app_assoc.
Qed.

Lemma accounted_fetch_fail w b url err b1 :
  modules b !! url = None ->
  downloadHTTP w url b = (fail err, b1) -> accounted w b (Err err) b1.
Proof.
  intros Hfresh Hdl.
  destruct (downloadHTTP_hit_or_miss w url b)
    as [(content & H)|(b1' & H & Hev & Hmod & Hhttp & Hset)]; rewrite H in Hdl;
    [done|].
  injection Hdl as Hfetch <-. exists [EvHttpGet url].
  split; [done|]. split; [done|]. split; [by rewrite Hmod|].
  split; [intros k; left; by rewrite Hhttp|].
  split; [intros k path Hin%list_elem_of_singleton; done|].
  split.
  { intros url' Hin%list_elem_of_singleton. injection Hin as ->.
    split; [done|]. by rewrite Hfetch. }
  split; [intros k Hin%list_elem_of_singleton; done|].
  intros msg [= <-]. exists [], (EvHttpGet url). split; [done|]. right. by exists url.
Qed.

Lemma accounted_fetch_ok w b url body b1 :
  modules b !! url = None ->
  downloadHTTP w url b = (ok body, b1) ->
  accounted w b Ok (store url body (with_httpModules <[url := true]> b1)).
Proof.
  intros Hfresh Hdl.
  assert (forall evs b0,
    events b0 = (events b ++ evs)%list -> modules b0 = modules b ->
    httpModules b0 = httpModules b -> same_settings b b0 ->
    (evs = [] \/ (evs = [EvHttpGet url] /\ fetched w url = ok body)) ->
    accounted w b Ok (store url body (with_httpModules <[url := true]> b0))) as Hgen.
  { intros evs b0 Hev Hmod Hhttp Hset Hevs. exists (evs ++ [EvStore url])%list.
    cbn [events modules httpModules store emit with_modules with_httpModules].
    rewrite Hev, Hmod, Hhttp.
    split; [by rewrite app_assoc|]. split; [done|].
    split; [by apply insert_subseteq|].
    split.
    { intros k. destruct (decide (url = k)) as [<-|Hne].
      - right. by rewrite !lookup_insert_eq.
      - left. by rewrite lookup_insert_ne. }
    split.
    { intros k path Hin. exfalso.
      destruct Hevs as [-> | [-> _]]; rewrite ?elem_of_cons, ?elem_of_nil in Hin;
        cbn [app] in Hin; rewrite ?elem_of_cons, ?elem_of_nil in Hin; naive_solver. }
    split.
    { intros url' Hin.
      destruct Hevs as [-> | [-> Hfetch]]; cbn [app] in Hin;
        rewrite ?elem_of_cons, ?elem_of_nil in Hin; [naive_solver|].
      destruct Hin as [[= ->]|[?|[]]]; [|done].
      split; [done|]. rewrite Hfetch. by rewrite !lookup_insert_eq. }
    split.
    { intros k Hin.
      assert (k = url) as ->.
      { destruct Hevs as [-> | [-> _]]; cbn [app] in Hin;
          rewrite ?elem_of_cons, ?elem_of_nil in Hin; naive_solver. }
      rewrite !lookup_insert_eq. split; [by eexists|by right]. }
    done. }
  destruct (downloadHTTP_hit_or_miss w url b)
    as [(content & H)|(b1' & H & Hev & Hmod & Hhttp & Hset)]; rewrite H in Hdl.
  - injection Hdl as <- <-.
    apply (Hgen []); [by rewrite app_nil_r|done|done|exact (same_settings_refl b)|by left].
  - injection Hdl as Hfetch <-. apply (Hgen [EvHttpGet url]); [done..|by right].
Qed.

Lemma accounted_read_fail w b key path err :
  modules b !! key = None ->
  ReadFile w path = fail err ->
  accounted w b (Err ("failed to read file " ++ path ++ ": " ++ err))
    (emit (EvReadFile key path) b).
Proof.
  intros Hfresh Hread. exists [EvReadFile key path].
  split; [done|]. split; [exact (same_settings_refl b)|]. split; [done|].
  split; [by left|].
  split.
  { intros k p Hin%list_elem_of_singleton. injection Hin as -> ->.
    by rewrite Hread. }
  split; [intros url Hin%list_elem_of_singleton; done|].
  split; [intros k Hin%list_elem_of_singleton; done|].
  intros msg [= <-]. exists [], (EvReadFile key path). split; [done|].
  left. by exists key, path, err.
Qed.

Lemma accounted_read_ok w b key path fileContent :
  modules b !! key = None ->
  ReadFile w path = ok fileContent ->
  accounted w b Ok (store key (maybeObfuscate b fileContent) (emit (EvReadFile key path) b)).
Proof.
  intros Hfresh Hread. exists [EvReadFile key path; EvStore key].
  cbn [events modules httpModules store emit with_modules].
  split; [by rewrite <- app_assoc|]. split; [exact (same_settings_refl b)|].
  split; [by apply insert_subseteq|].
  split; [by left|].
  split.
  { intros k p Hin. rewrite !elem_of_cons, elem_of_nil in Hin.
    destruct Hin as [[= -> ->]|[?|[]]]; [|done].
    by rewrite Hread, lookup_insert_eq. }
  split.
  { intros url Hin. rewrite !elem_of_cons, elem_of_nil in Hin. naive_solver. }
  split.
  { intros k Hin. rewrite !elem_of_cons, elem_of_nil in Hin.
    destruct Hin as [?|[[= ->]|[]]]; [done|].
    rewrite lookup_insert_eq. split; [by eexists|].
    left. exists path. by left. }
  done.
Qed.

(** Every run of [processFile] is accounted for. *)
Lemma processFile_accounted w fuel filePath content b :
  accounted w b (processFile w fuel filePath content b).1
                (processFile w fuel filePath content b).2.
Proof.
  apply (processFile_exact w (accounted w)).
  - apply accounted_refl.
  - apply accounted_trans.
  - apply accounted_fuel.
  - apply accounted_scan.
  - apply accounted_fetch_fail.
  - apply accounted_fetch_ok.
  - apply accounted_read_fail.
  - apply accounted_read_ok.
Qed.

End account_facts.

(* ===================================================================== *)
(** ** Dependency closure of a successful run *)
(* ===================================================================== *)

Module closure_facts.

Import regexp bundler bundle props account run_facts session_facts account_facts.

Lemma scans_covered_mono b b' evs :
  modules b ⊆ modules b' -> scans_covered b evs -> scans_covered b' evs.
Proof.
  intros Hsub Hcov filePath content line k Hscan Hline Hk.
  eapply subseteq_is_Some; [exact Hsub|]. by eapply Hcov.
Qed.

Lemma scans_covered_app b evs evs' :
  scans_covered b evs -> scans_covered b evs' -> scans_covered b (evs ++ evs')%list.
Proof.
  intros H1 H2 filePath content line k [Hscan|Hscan]%elem_of_app; eauto.
Qed.

Lemma scans_covered_quiet b evs :
  (forall filePath content, EvScan filePath content ∉ evs) -> scans_covered b evs.
Proof. intros Hno filePath content line k Hscan. by destruct (Hno filePath content). Qed.

Section body.

Variable w : World.
Variable self : string -> string -> Bundler -> outcome * Bundler.
Hypothesis self_covers : forall filePath content b,
  (self filePath content b).1 = Ok ->
  exists new,
    events (self filePath content b).2 = (events b ++ new)%list /\
    scans_covered (self filePath content b).2 new /\
    modules b ⊆ modules (self filePath content b).2.

Lemma recurse_covers b0 evs key filePath content b :
  events b = (events b0 ++ evs)%list ->
  (forall p c, EvScan p c ∉ evs) ->
  modules b0 ⊆ modules b -> is_Some (modules b !! key) ->
  flow_covers b0 [key] (recurse self filePath content b).
Proof.
  intros Hev Hquiet Hsub Hkey. unfold recurse.
  pose proof (self_covers filePath content b) as Hs.
  destruct (self filePath content b) as [o b']. cbn [fst snd] in Hs.
  destruct o; cbn [flow_covers]; try done.
  destruct (Hs eq_refl) as (new & Hev' & Hcov & Hsub').
  exists (evs ++ new)%list. split; [by rewrite Hev', Hev, app_assoc|].
  split; [apply scans_covered_app; [by apply scans_covered_quiet|done]|].
  split; [by etrans|].
  intros k ->%list_elem_of_singleton. by eapply subseteq_is_Some.
Qed.

Lemma flow_covers_idle b (needs : list string) :
  (forall k, k ∈ needs -> is_Some (modules b !! k)) ->
  exists new,
    events b = (events b ++ new)%list /\ scans_covered b new /\
    modules b ⊆ modules b /\
    forall k, k ∈ needs -> is_Some (modules b !! k).
Proof.
  intros Hneeds. exists []. rewrite app_nil_r. repeat split; [|done|done].
  apply scans_covered_quiet. intros p c Hin. by apply elem_of_nil in Hin.
Qed.

Lemma fetchRule_covers line b :
  let matches := FindStringSubmatch httpGetRegex line in
  flow_covers b (if Nat.ltb 1 (length matches) then [nth 1 matches EmptyString] else [])
    (fetchRule w self line b).
Proof.
  cbv zeta. unfold fetchRule.
  destruct (Nat.ltb 1 _).
  2: { apply flow_covers_idle. intros k Hk. by apply elem_of_nil in Hk. }
  set (url := nth 1 _ _).
  destruct (modules b !! url) eqn:Hfresh.
  { apply flow_covers_idle. intros k ->%list_elem_of_singleton. by eexists. }
  destruct (downloadHTTP w url b) as [[httpContent|err] b1] eqn:Hdl; [|done].
  destruct (downloadHTTP_hit_or_miss w url b)
    as [(content & H)|(b1' & H & Hev & Hmod & Hhttp & Hset)]; rewrite H in Hdl.
  - injection Hdl as <- <-.
    apply (recurse_covers b [EvStore url]); [done| | |].
    + intros p c Hin%list_elem_of_singleton. done.
    + by apply insert_subseteq.
    + cbn [modules store emit with_modules with_httpModules].
      rewrite lookup_insert_eq. by eexists.
  - injection Hdl as _ <-.
    apply (recurse_covers b [EvHttpGet url; EvStore url]).
    + cbn [events store emit with_modules with_httpModules].
      by rewrite Hev, <- app_assoc.
    + intros p c Hin. rewrite !elem_of_cons, elem_of_nil in Hin. naive_solver.
    + cbn [modules store emit with_modules with_httpModules]. rewrite Hmod.
      by apply insert_subseteq.
    + cbn [modules store emit with_modules with_httpModules].
      rewrite lookup_insert_eq. by eexists.
Qed.

Lemma requireRule_covers filePath line b :
  let matches := FindStringSubmatch requireRegex line in
  let modulePath := requireLiteral matches in
  flow_covers b
    (if Nat.ltb 1 (length matches) && negb (String.eqb modulePath EmptyString)
        && isLocalModule modulePath
     then [modulePath] else [])
    (requireRule w self filePath line b).
Proof.
  cbv zeta. unfold requireRule.
  destruct (Nat.ltb 1 _); cbn [andb].
  2: { apply flow_covers_idle. intros k Hk. by apply elem_of_nil in Hk. }
  set (modulePath := requireLiteral _).
  destruct (_ && _).
  2: { apply flow_covers_idle. intros k Hk. by apply elem_of_nil in Hk. }
  destruct (modules b !! modulePath) eqn:Hfresh.
  { apply flow_covers_idle. intros k ->%list_elem_of_singleton. by eexists. }
  destruct (ReadFile w _) as [fileContent|err]; [|done].
  eapply (recurse_covers b [EvReadFile modulePath _; EvStore modulePath]).
  - cbn [events store emit with_modules]. by rewrite <- app_assoc.
  - intros p c Hin. rewrite !elem_of_cons, elem_of_nil in Hin. naive_solver.
  - by apply insert_subseteq.
  - cbn [modules store emit with_modules]. rewrite lookup_insert_eq. by eexists.
Qed.

Lemma loopBody_covers filePath line b :
  flow_covers b (line_needs line) (loopBody w self filePath line b).
Proof.
  unfold loopBody, line_needs.
  destruct (MatchString _ _).
  { apply flow_covers_idle. intros k Hk. by apply elem_of_nil in Hk. }
  pose proof (fetchRule_covers line b) as Hf. cbv zeta in Hf.
  destruct (fetchRule w self line b) as [b1|b1|o b1] eqn:Hfetch; cbn [flow_covers] in Hf.
  - destruct Hf as (new1 & Hev1 & Hcov1 & Hsub1 & Hneed1).
    pose proof (requireRule_covers filePath line b1) as Hr. cbv zeta in Hr.
    destruct (requireRule w self filePath line b1) as [b2|b2|o b2];
      cbn [flow_covers] in *; [| |done].
    all: destruct Hr as (new2 & Hev2 & Hcov2 & Hsub2 & Hneed2).
    all: exists (new1 ++ new2)%list.
    all: split; [by rewrite Hev2, Hev1, app_assoc|].
    all: split; [apply scans_covered_app; [by eapply scans_covered_mono|done]|].
    all: split; [by etrans|].
    all: destruct (Nat.ltb 1 _);
      [intros k Hk; eapply subseteq_is_Some; [exact Hsub2|by apply Hneed1]|done].
  - destruct Hf as (new1 & Hev1 & Hcov1 & Hsub1 & Hneed1).
    exists new1. repeat split; try done.
    (* a continue comes only from a URL the table has *)
    unfold fetchRule in Hfetch.
    destruct (Nat.ltb 1 _); [done|]. discriminate Hfetch.
  - done.
Qed.

Lemma forLines_covers filePath lines b :
  (forLines w self filePath lines b).1 = Ok ->
  exists new,
    events (forLines w self filePath lines b).2 = (events b ++ new)%list /\
    scans_covered (forLines w self filePath lines b).2 new /\
    modules b ⊆ modules (forLines w self filePath lines b).2 /\
    forall line k, line ∈ lines -> k ∈ line_needs line ->
      is_Some (modules (forLines w self filePath lines b).2 !! k).
Proof.
  revert b. induction lines as [|line lines IH]; intros b.
  - intros _. exists []. rewrite app_nil_r. repeat split; [|done|].
    + apply scans_covered_quiet. intros p c Hin. by apply elem_of_nil in Hin.
    + intros line k Hin. by apply elem_of_nil in Hin.
  - cbn [forLines]. pose proof (loopBody_covers filePath line b) as Hl.
    assert (forall b1,
      (exists new,
        events b1 = (events b ++ new)%list /\ scans_covered b1 new /\
        modules b ⊆ modules b1 /\
        forall k, k ∈ line_needs line -> is_Some (modules b1 !! k)) ->
      (forLines w self filePath lines b1).1 = Ok ->
      exists new,
        events (forLines w self filePath lines b1).2 = (events b ++ new)%list /\
        scans_covered (forLines w self filePath lines b1).2 new /\
        modules b ⊆ modules (forLines w self filePath lines b1).2 /\
        forall line' k, line' ∈ line :: lines -> k ∈ line_needs line' ->
          is_Some (modules (forLines w self filePath lines b1).2 !! k)) as Hstep.
    { intros b1 (new1 & Hev1 & Hcov1 & Hsub1 & Hneed1) Hok.
      destruct (IH b1 Hok) as (new2 & Hev2 & Hcov2 & Hsub2 & Hneed2).
      exists (new1 ++ new2)%list.
      split; [by rewrite Hev2, Hev1, app_assoc|].
      split; [apply scans_covered_app; [by eapply scans_covered_mono|done]|].
      split; [by etrans|].
      intros line' k [->|Hin]%elem_of_cons Hk.
      - eapply subseteq_is_Some; [exact Hsub2|by apply Hneed1].
      - by eapply Hneed2. }
    destruct (loopBody w self filePath line b) as [b1|b1|o b1]; cbn [flow_covers] in Hl.
    + by apply Hstep.
    + by apply Hstep.
    + cbn [fst]. done.
Qed.

End body.

Lemma processFile_covers w fuel filePath content b :
  (processFile w fuel filePath content b).1 = Ok ->
  exists new,
    events (processFile w fuel filePath content b).2 = (events b ++ new)%list /\
    scans_covered (processFile w fuel filePath content b).2 new /\
    modules b ⊆ modules (processFile w fuel filePath content b).2.
Proof.
  revert filePath content b. induction fuel as [|fuel IH]; intros filePath content b.
  - done.
  - cbn [processFile]. intros Hok.
    destruct (forLines_covers w (processFile w fuel) IH filePath
                (strings.Split content newline) (emit (EvScan filePath content) b) Hok)
      as (new & Hev & Hcov & Hsub & Hneeds).
    exists (EvScan filePath content :: new). cbn [events emit] in Hev.
    split; [by rewrite Hev, <- app_assoc|]. split; [|done].
    intros p c line k [[= -> ->]|Hin]%elem_of_cons Hline Hk.
    + by eapply Hneeds.
    + by eapply Hcov.
Qed.

(** A line that gives no rule anything to do leaves the bundler alone. *)
Lemma loopBody_idle w self filePath line b :
  idle_line line = true ->
  loopBody w self filePath line b = Continue b \/
  loopBody w self filePath line b = Next b.
Proof.
  unfold idle_line, loopBody.
  destruct (MatchString _ _); [by left|]. cbn [orb].
  intros [Hf Hr]%andb_true_iff. apply negb_true_iff in Hf, Hr.
  unfold fetchRule. rewrite Hf. unfold requireRule.
  destruct (Nat.ltb 1 (length (FindStringSubmatch requireRegex line))); [|by right].
  cbn [andb] in Hr. rewrite Hr. by right.
Qed.

Lemma forLines_idle w self filePath lines b :
  forallb idle_line lines = true ->
  forLines w self filePath lines b = (Ok, b).
Proof.
  induction lines as [|line lines IH]; [done|].
  cbn [forallb forLines]. intros [Hl Hrest]%andb_true_iff.
  destruct (loopBody_idle w self filePath line b Hl) as [-> | ->]; by apply IH.
Qed.

(** A successful run covers the text it was given and all it scanned. *)
Lemma processFile_entry_covered w fuel filePath content b :
  (processFile w fuel filePath content b).1 = Ok ->
  exists rest,
    events (processFile w fuel filePath content b).2 =
      (events b ++ EvScan filePath content :: rest)%list /\
    scans_covered (processFile w fuel filePath content b).2
      (EvScan filePath content :: rest).
Proof.
  destruct fuel as [|fuel]; [done|]. cbn [processFile]. intros Hok.
  destruct (forLines_covers w (processFile w fuel) (processFile_covers w fuel) filePath
              (strings.Split content newline) (emit (EvScan filePath content) b) Hok)
    as (new & Hev & Hcov & Hsub & Hneeds).
  exists new. cbn [events emit] in Hev. split; [by rewrite Hev, <- app_assoc|].
  intros p c line k [[= -> ->]|Hin]%elem_of_cons Hline Hk.
  - by eapply Hneeds.
  - by eapply Hcov.
Qed.


End closure_facts.

(* ===================================================================== *)
(** ** The recursion into fetched text *)
(* ===================================================================== *)

Import bundle account closure_facts.




(* ===================================================================== *)
(** ** Further properties of the code *)
(* ===================================================================== *)

Import strings filepath bundle cmd account.
Import path_facts session_facts account_facts closure_facts.

(** *** The path functions *)

(** X1: every path [resolveModulePath] returns ends in ".lua", whatever the
    base directory, the current file and the reference. *)
Theorem resolveModulePath_ends_in_lua (baseDir currentFile modulePath : string) :
  HasSuffix (resolveModulePath baseDir currentFile modulePath) ".lua" = true.
Proof.
  unfold resolveModulePath.
  destruct (HasPrefix _ "/"); [apply ensureLua_suffix|].
  destruct (_ && _); [apply ensureLua_suffix|].
  apply Clean_keeps_suffix; [simpl; lia|done|apply ensureLua_suffix].
Qed.

(** X2: quote characters around a reference do not change where it resolves:
    any run of single and double quotes before and after is stripped. *)
Theorem resolveModulePath_ignores_quotes
    (baseDir currentFile before modulePath after : string) :
  all_bytes quote before = true ->
  all_bytes quote after = true ->
  resolveModulePath baseDir currentFile (before ++ modulePath ++ after) =
  resolveModulePath baseDir currentFile modulePath.
Proof.
  intros Hb Ha. unfold resolveModulePath.
  assert (forall q, all_bytes quote q = true ->
                    all_bytes (fun c => in_cutset c quotes) q = true) as Hq.
  { intros q. apply all_bytes_weaken. intros c. unfold quote, byte_is, quotes.
    cbn [in_cutset]. by rewrite orb_false_r. }
  by rewrite (Trim_cut before modulePath after quotes) by auto.
Qed.

Lemma resolveModulePath_ignores_quotes_witness :
  resolveModulePath "/base" "/base/main.lua"
    (String dquote EmptyString ++ "modules.tasks.cook" ++ String dquote EmptyString) =
  resolveModulePath "/base" "/base/main.lua" "modules.tasks.cook".
Proof. apply resolveModulePath_ignores_quotes; reflexivity. Defined.

(** X3: [isLocalModule] is decided by its two guards alone: a reference is
    Local exactly when it has no "::" and its first dot-segment is not a
    reserved name. The six-way test that follows the guards never says
    no. *)
Theorem isLocalModule_is_its_guards (modulePath : string) :
  isLocalModule modulePath =
    negb (Contains modulePath "::") &&
    negb (existsb (String.eqb (hd EmptyString (Split modulePath "."))) externalPrefixes).
Proof. apply isLocalModule_guards. Qed.

(** X4: a reserved name, alone or followed by a dot and anything, is External:
    game, game.Workspace, Players.LocalPlayer.Name and the like. *)
Theorem isLocalModule_reserved_namespace (name rest : string) :
  In name externalPrefixes ->
  isLocalModule name = false /\ isLocalModule (name ++ "." ++ rest) = false.
Proof.
  intros Hin.
  assert (Split name "." = [name]) as Hname.
  { cbv [externalPrefixes In] in Hin.
    repeat (destruct Hin as [<-|Hin]; [reflexivity|]). done. }
  assert (existsb (String.eqb name) externalPrefixes = true) as Hex.
  { apply existsb_exists. exists name. by rewrite String.eqb_refl. }
  rewrite !isLocalModule_guards.
  change (name ++ "." ++ rest) with (name ++ String "." rest).
  rewrite Split_app, Hname. cbn [app hd]. rewrite Hex.
  by rewrite !andb_false_r.
Qed.

Lemma isLocalModule_reserved_namespace_witness :
  isLocalModule "Players" = false /\
  isLocalModule ("Players" ++ "." ++ "LocalPlayer.Name") = false.
Proof.
  apply isLocalModule_reserved_namespace.
  cbv [externalPrefixes In]. do 13 right. by left.
Defined.

(** *** Downloads, the constructor and the command *)

(** X5: a download that succeeds with the cache on and willing is served from
    the cache the next time: the same text, the bundler untouched and no
    request, whatever has become of the network. *)
Theorem downloadHTTP_cached_next_time (w w' : World) (url body : string) (b : Bundler) :
  cache.IsEnabled (cache_ b) = true ->
  getFails (cache_ b) url = None ->
  entries (cache_ b) !! url = None ->
  setFails (cache_ b) url body = None ->
  fetched w url = ok body ->
  let b1 := (downloadHTTP w url b).2 in
  (downloadHTTP w url b).1 = ok body /\
  downloadHTTP w' url b1 = (ok body, b1).
Proof.
  intros Hen Hget Hmiss Hset Hfetch. cbv zeta.
  rewrite (downloadHTTP_miss w url b).
  2: { right. intros content. unfold cache.Get. by rewrite Hget, Hmiss. }
  rewrite Hfetch, Hen. cbn [fst snd]. split; [done|].
  unfold downloadHTTP, cache.Set_, cache.IsEnabled, cache.Get.
  rewrite Hset. cbn [snd cache_ with_cache emit enabled getFails entries].
  unfold cache.IsEnabled in Hen. by rewrite Hen, Hget, lookup_insert_eq.
Qed.

Lemma downloadHTTP_cached_next_time_witness :
  let b := with_cache more_samples.quietCache samples.session in
  let b1 := (downloadHTTP online.world "http://h/lib.lua" b).2 in
  (downloadHTTP online.world "http://h/lib.lua" b).1 = ok "return {}" /\
  downloadHTTP (samples.offline []) "http://h/lib.lua" b1 = (ok "return {}", b1).
Proof.
  apply (downloadHTTP_cached_next_time online.world (samples.offline [])
           "http://h/lib.lua" "return {}"
           (with_cache more_samples.quietCache samples.session)); reflexivity.
Defined.

(** X6: [downloadHTTP] never touches the module tables or the settings. It
    records one request or none; a failed download leaves the cache as it
    was, and so does every download when the cache is off. *)
Theorem downloadHTTP_frame (w : World) (url : string) (b : Bundler) :
  let r := downloadHTTP w url b in
  modules r.2 = modules b /\ httpModules r.2 = httpModules b /\
  same_settings b r.2 /\
  (events r.2 = events b \/ events r.2 = (events b ++ [EvHttpGet url])%list) /\
  ((forall body, r.1 <> ok body) -> cache_ r.2 = cache_ b) /\
  (cache.IsEnabled (cache_ b) = false ->
   cache_ r.2 = cache_ b /\ events r.2 = (events b ++ [EvHttpGet url])%list).
Proof. apply downloadHTTP_effect. Qed.

(** X7: for an entry path without a slash, [NewBundler] takes the working
    directory as base directory; it fails when the working directory
    cannot be had, else when the cache cannot be made, and otherwise
    returns a bundler with empty tables and obfuscation off. *)
Theorem NewBundler_without_directory (wd : result string) (c : result Cache)
    (entryFile : string) (verbose : bool) :
  Contains entryFile "/" = false ->
  NewBundler wd c entryFile verbose =
    match wd, c with
    | fail err, _ => fail ("failed to get working directory: " ++ err)
    | ok _, fail err => fail ("failed to initialize cache: " ++ err)
    | ok dir, ok c => ok (emptyBundler dir entryFile c verbose)
    end.
Proof.
  intros Hplain. unfold NewBundler, Dir. rewrite upto_last_sep_none by done.
  change (Clean EmptyString) with ".". cbn [String.eqb Ascii.eqb Bool.eqb].
  by destruct wd, c.
Qed.

Lemma NewBundler_without_directory_witness :
  NewBundler (ok "/home/me/proj") (ok samples.noCache) "main.lua" false =
  ok (emptyBundler "/home/me/proj" "main.lua" samples.noCache false).
Proof. by apply NewBundler_without_directory. Defined.

(** X8: [SetVersionInfo] shows the commit hash cut to its first eight bytes,
    and whole when it has no more than eight. *)
Theorem SetVersionInfo_commit (v date commit : string) :
  exists shown rest,
    SetVersionInfo v date commit =
      v ++ " (built: " ++ date ++ ", commit: " ++ shown ++ ")" /\
    commit = shown ++ rest /\
    String.length shown = Nat.min 8 (String.length commit).
Proof.
  unfold SetVersionInfo, commitDisplay.
  destruct (Nat.ltb_spec 8 (String.length commit)) as [Hlong|Hshort].
  - destruct (first_bytes_prefix 8 commit) as (rest & Hrest & Hlen).
    exists (first_bytes 8 commit), rest. by repeat split.
  - exists commit, EmptyString. repeat split; [|lia].
    clear. induction commit as [|c s IH]; [done|].
    change (String c s ++ EmptyString) with (String c (s ++ EmptyString)).
    by rewrite <- IH.
Qed.

(** X9: [Run] never indexes [levelName] out of range, and it sees the
    obfuscation level only through its clamp: a negative level runs as 0
    and a level above 3 runs as 3. *)
Theorem Run_clamps_level (host : Host) (fuel : nat) (flags : Flags) :
  Run host fuel flags <> Panic /\
  Run host fuel flags = Run host fuel (withLevel (clampLevel (obfuscate flags)) flags).
Proof.
  unfold Run. cbn [entry obfuscate verboseFlag noCache release output serve port withLevel].
  destruct (String.eqb (entry flags) EmptyString); [done|].
  destruct (printLevel_clamp (obfuscate flags)) as [name ->].
  destruct (printLevel_clamp (clampLevel (obfuscate flags))) as [name' ->].
  assert (forall l : Z,
            (0 <? clampLevel l)%Z = (0 <? l)%Z /\
            clampLevel (clampLevel l) = clampLevel l) as Hclamp.
  { intros l. unfold clampLevel.
    destruct (Z.ltb_spec 0 l); [|done].
    destruct (Z.ltb_spec 3 l); [done|].
    destruct (Z.ltb_spec 0 l); [|lia]. by destruct (Z.ltb_spec 3 l); [lia|]. }
  destruct (Hclamp (obfuscate flags)) as [Hpos Hidem]. rewrite Hpos, Hidem.
  destruct (Z.ltb 0 (obfuscate flags)) eqn:Hlevel; rewrite ?Hpos.
  - split; [|done].
    destruct (NewBundler _ _ _ _); [|done].
    destruct (Bundle _ _ _ _ _) as [[[result|err]|] b']; try done.
    by destruct (WriteFile _ _ _).
  - rewrite ?Hlevel. split; [|done].
    destruct (NewBundler _ _ _ _); [|done].
    destruct (Bundle _ _ _ _ _) as [[[result|err]|] b']; try done.
    by destruct (WriteFile _ _ _).
Qed.

(** *** The traversal and [Bundle] *)

(** X10: a run that succeeds leaves a table closed under the references of
    everything it scanned, the text it was given first of all: for every
    scanned line that is not guarded, the URL of the fetch idiom has a
    record, and if the line has no fetch idiom the Local literal of its
    require call has one. *)
Theorem processFile_closes_dependencies (w : World) (fuel : nat)
    (filePath content : string) (b : Bundler) :
  (processFile w fuel filePath content b).1 = Ok ->
  let b' := (processFile w fuel filePath content b).2 in
  exists rest,
    events b' = (events b ++ EvScan filePath content :: rest)%list /\
    scans_covered b' (EvScan filePath content :: rest).
Proof.
  intros Hok. cbv zeta. by apply processFile_entry_covered.
Qed.

Lemma processFile_closes_dependencies_witness :
  let b' := (processFile cycle 3 "/proj/main.lua" main_lua session).2 in
  exists rest,
    events b' = (events session ++ EvScan "/proj/main.lua" main_lua :: rest)%list /\
    scans_covered b' (EvScan "/proj/main.lua" main_lua :: rest).
Proof.
  apply (processFile_closes_dependencies cycle 3 "/proj/main.lua" main_lua session).
  by vm_compute.
Defined.

(** X11: a text in which no line gives a rule anything to do (each line is
    guarded, or has no fetch idiom and no Local require literal) is
    scanned and nothing else: no read, no request, no record, whatever
    the world and the bundler. *)
Theorem processFile_without_references (w : World) (fuel : nat)
    (filePath content : string) (b : Bundler) :
  forallb idle_line (strings.Split content newline) = true ->
  processFile w (S fuel) filePath content b = (Ok, emit (EvScan filePath content) b).
Proof. intros Hidle. cbn [processFile]. by apply forLines_idle. Qed.

Lemma processFile_without_references_witness :
  processFile online.world 1 "/proj/main.lua"
    (text ["print('hello')"; "local ws = require('game.Workspace')"; EmptyString]) session
  = (Ok, emit (EvScan "/proj/main.lua"
                 (text ["print('hello')"; "local ws = require('game.Workspace')";
                        EmptyString])) session).
Proof. apply processFile_without_references. by vm_compute. Defined.

(** X12: in a run that succeeds, every file read has a record, and the record
    holds the file's content passed through the obfuscator when the level
    is positive and an obfuscator is set, and the content itself
    otherwise. *)
Theorem local_records_hold_the_file (w : World) (fuel : nat)
    (filePath content : string) (b : Bundler) :
  (processFile w fuel filePath content b).1 = Ok ->
  let b' := (processFile w fuel filePath content b).2 in
  exists new,
    events b' = (events b ++ new)%list /\
    forall key path, EvReadFile key path ∈ new ->
      exists fileContent,
        ReadFile w path = ok fileContent /\
        modules b' !! key = Some (maybeObfuscate b fileContent) /\
        ((obfuscateLevel b <= 0)%Z \/ obfuscator b = None ->
         modules b' !! key = Some fileContent).
Proof.
  intros Hok. cbv zeta.
  destruct (processFile_accounted w fuel filePath content b)
    as (new & Hev & _ & _ & _ & Hread & _).
  exists new. split; [done|]. intros key path Hin.
  destruct (Hread key path Hin) as (_ & _ & M). rewrite Hok in M.
  destruct (ReadFile w path) as [fileContent|cause]; [|discriminate M].
  exists fileContent. repeat split; [done|].
  intros Hoff. rewrite M. f_equal. unfold maybeObfuscate.
  destruct Hoff as [Hlevel| ->]; [|done].
  destruct (obfuscator b); [|done].
  by destruct (Z.ltb_spec 0 (obfuscateLevel b)); [lia|].
Qed.

Lemma local_records_hold_the_file_witness :
  let b' := (processFile obfuscated.world 2 "/proj/main.lua" "local m = require('m')"
               obfuscated.session2).2 in
  exists new,
    events b' = (events obfuscated.session2 ++ new)%list /\
    forall key path, EvReadFile key path ∈ new ->
      exists fileContent,
        ReadFile obfuscated.world path = ok fileContent /\
        modules b' !! key = Some (maybeObfuscate obfuscated.session2 fileContent) /\
        ((obfuscateLevel obfuscated.session2 <= 0)%Z \/
         obfuscator obfuscated.session2 = None ->
         modules b' !! key = Some fileContent).
Proof.
  apply (local_records_hold_the_file obfuscated.world 2 "/proj/main.lua"
           "local m = require('m')" obfuscated.session2).
  by vm_compute.
Defined.

(** X13: in a run that succeeds, every URL requested from the network answered
    200 with a readable body, and its record holds that body as it came,
    obfuscation or not, and is flagged in [httpModules]. *)
Theorem remote_records_hold_the_body (w : World) (fuel : nat)
    (filePath content : string) (b : Bundler) :
  (processFile w fuel filePath content b).1 = Ok ->
  let b' := (processFile w fuel filePath content b).2 in
  exists new,
    events b' = (events b ++ new)%list /\
    forall url, EvHttpGet url ∈ new ->
      exists resp body,
        HttpGet w url = ok resp /\ StatusCode resp = 200%Z /\ Body resp = ok body /\
        modules b' !! url = Some body /\ httpModules b' !! url = Some true.
Proof.
  intros Hok. cbv zeta.
  destruct (processFile_accounted w fuel filePath content b)
    as (new & Hev & _ & _ & _ & _ & Hget & _).
  exists new. split; [done|]. intros url Hin.
  destruct (Hget url Hin) as (_ & M). rewrite Hok in M. unfold fetched in M.
  destruct (HttpGet w url) as [resp|cause] eqn:Hresp; [|discriminate M].
  destruct (Z.eqb_spec (StatusCode resp) 200) as [Hstatus|]; [|discriminate M].
  destruct (Body resp) as [body|cause] eqn:Hbody; [|discriminate M].
  destruct M as [M T]. by exists resp, body.
Qed.

Lemma remote_records_hold_the_body_witness :
  let b' := (processFile duplicate.world 2 "/proj/main.lua" duplicate.both_line
               (SetObfuscationLevel (fun _ => obfuscated.banner) 2 session)).2 in
  exists new,
    events b' =
      (events (SetObfuscationLevel (fun _ => obfuscated.banner) 2 session) ++ new)%list /\
    forall url, EvHttpGet url ∈ new ->
      exists resp body,
        HttpGet duplicate.world url = ok resp /\ StatusCode resp = 200%Z /\
        Body resp = ok body /\
        modules b' !! url = Some body /\ httpModules b' !! url = Some true.
Proof.
  apply (remote_records_hold_the_body duplicate.world 2 "/proj/main.lua"
           duplicate.both_line (SetObfuscationLevel (fun _ => obfuscated.banner) 2 session)).
  by vm_compute.
Defined.

(** X14: a run that fails stops at the cause: its last event is the read of
    the file that could not be read, with the error naming the resolved
    path and the cause, or the request whose download failed, with that
    download's error. Nothing is read, requested or stored after it. *)
Theorem processFile_stops_at_the_failure (w : World) (fuel : nat)
    (filePath content msg : string) (b : Bundler) :
  (processFile w fuel filePath content b).1 = Err msg ->
  exists before e,
    events (processFile w fuel filePath content b).2 = (events b ++ before ++ [e])%list /\
    failed_at w e msg.
Proof.
  intros Herr.
  destruct (processFile_accounted w fuel filePath content b)
    as (new & Hev & _ & _ & _ & _ & _ & _ & Hfail).
  destruct (Hfail msg Herr) as (before & e & -> & He).
  by exists before, e.
Qed.

Lemma processFile_stops_at_the_failure_witness :
  exists before e,
    events (processFile remote.world 2 "/proj/main.lua" remote.fetch_line session).2 =
      (events session ++ before ++ [e])%list /\
    failed_at remote.world e
      "failed to read file https:/example.com/lib/util.lua: open https:/example.com/lib/util.lua: no such file or directory".
Proof.
  apply (processFile_stops_at_the_failure remote.world 2 "/proj/main.lua"
           remote.fetch_line).
  by vm_compute.
Defined.

(** X15: starting from flags that all belong to records, a run keeps them so,
    and every record it creates is of one kind only: read from a file and
    not flagged in [httpModules], or flagged there and read from no
    file. *)
Theorem records_are_local_or_remote (w : World) (fuel : nat)
    (filePath content : string) (b : Bundler) :
  flags_ok b ->
  let b' := (processFile w fuel filePath content b).2 in
  flags_ok b' /\
  exists new,
    events b' = (events b ++ new)%list /\
    forall key, EvStore key ∈ new ->
      ((exists path, EvReadFile key path ∈ new) /\ httpModules b' !! key = None) \/
      (httpModules b' !! key = Some true /\ forall path, EvReadFile key path ∉ new).
Proof.
  intros Hflags. cbv zeta.
  destruct (processFile_accounted w fuel filePath content b)
    as (new & Hev & _ & Hsub & Hflag & Hread & _ & Hstore & _).
  assert (forall k, modules b !! k = None -> httpModules b !! k = None) as Hnone.
  { intros k Hk. destruct (httpModules b !! k) as [v|] eqn:Hv; [|done].
    destruct (Hflags k v Hv) as [_ [x Hx]]. congruence. }
  split.
  { intros k v Hv. destruct (Hflag k) as [E|(_ & S & T)].
    - rewrite E in Hv. destruct (Hflags k v Hv) as [-> S].
      split; [done|by eapply subseteq_is_Some].
    - split; [congruence|done]. }
  exists new. split; [done|]. intros key Hin.
  assert (forall path, EvReadFile key path ∈ new -> httpModules
            (processFile w fuel filePath content b).2 !! key = None) as Hlocal.
  { intros path Hp. destruct (Hread key path Hp) as (N & F & _).
    rewrite F. by apply Hnone. }
  destruct (Hstore key Hin) as (_ & [(path & Hp)|T]).
  - left. split; [by exists path|by eapply Hlocal].
  - right. split; [done|]. intros path Hp. rewrite (Hlocal path Hp) in T. done.
Qed.

Lemma records_are_local_or_remote_witness :
  let b' := (processFile duplicate.world 2 "/proj/main.lua" duplicate.both_line session).2 in
  flags_ok b' /\
  exists new,
    events b' = (events session ++ new)%list /\
    forall key, EvStore key ∈ new ->
      ((exists path, EvReadFile key path ∈ new) /\ httpModules b' !! key = None) \/
      (httpModules b' !! key = Some true /\ forall path, EvReadFile key path ∉ new).
Proof.
  apply (records_are_local_or_remote duplicate.world 2 "/proj/main.lua"
           duplicate.both_line session).
  intros k v Hv. discriminate Hv.
Defined.

(** X16: [Bundle] fails either on the entry file, before anything else is
    done, or with the error of the read or request at which the traversal
    stopped; the error names the path or URL and the cause. *)
Theorem Bundle_failure_names_the_cause (tools : Emitter) (w : World) (fuel : nat)
    (releaseMode : bool) (b b' : Bundler) (msg : string) :
  Bundle tools w fuel releaseMode b = (Some (fail msg), b') ->
  (exists cause,
     ReadFile w (entryFile b) = fail cause /\
     msg = "failed to read entry file: " ++ cause /\ b' = b) \/
  (exists before e,
     events b' = (events b ++ before ++ [e])%list /\ failed_at w e msg).
Proof.
  unfold Bundle.
  destruct (ReadFile w (entryFile b)) as [mainContent|cause].
  2: { intros [= <- <-]. left. by exists cause. }
  pose proof (processFile_accounted w fuel (entryFile b) mainContent b) as Hacc.
  destruct (processFile w fuel (entryFile b) mainContent b) as [[|msg'|] b1];
    cbn [fst snd] in Hacc; [done| |done].
  intros [= <- <-]. right.
  destruct Hacc as (new & Hev & _ & _ & _ & _ & _ & _ & Hfail).
  destruct (Hfail msg' eq_refl) as (before & e & -> & He).
  by exists before, e.
Qed.

Lemma Bundle_failure_names_the_cause_witness :
  (exists cause,
     ReadFile (offline []) (entryFile session) = fail cause /\
     "failed to read entry file: open /proj/main.lua: no such file or directory" =
       "failed to read entry file: " ++ cause /\ session = session) \/
  (exists before e,
     events session = (events session ++ before ++ [e])%list /\
     failed_at (offline []) e
       "failed to read entry file: open /proj/main.lua: no such file or directory").
Proof.
  apply (Bundle_failure_names_the_cause more_samples.plainTools (offline []) 1 false
           session session).
  reflexivity.
Defined.

(** X17: when [Bundle] succeeds, the entry file was readable, the output is
    [generateBundle] of the final bundler and of the entry text
    (obfuscated when obfuscation is on), put through the three release
    passes in their order when release is asked; and for every line of
    the entry text that is not guarded, the final table has a record for
    the URL of the line's fetch idiom, or, when the line has no fetch
    idiom, for the Local literal of the leftmost require call on it.
    Nothing is said of a require that shares its line with a fetch idiom
    or comes second on its line: the loop may pass over those. *)
Theorem Bundle_output (tools : Emitter) (w : World) (fuel : nat)
    (releaseMode : bool) (b b' : Bundler) (out : string) :
  Bundle tools w fuel releaseMode b = (Some (ok out), b') ->
  exists mainContent,
    ReadFile w (entryFile b) = ok mainContent /\
    out = (let plain := generateBundle tools b' (maybeObfuscate b mainContent) in
           if releaseMode
           then minifyCode tools (removeComments tools (removeDebugStatements tools plain))
           else plain) /\
    forall line k,
      line ∈ Split mainContent newline -> k ∈ line_needs line ->
      is_Some (modules b' !! k).
Proof.
  unfold Bundle.
  destruct (ReadFile w (entryFile b)) as [mainContent|cause]; [|done].
  pose proof (processFile_accounted w fuel (entryFile b) mainContent b) as Hacc.
  pose proof (processFile_entry_covered w fuel (entryFile b) mainContent b)
    as Hclosed.
  destruct (processFile w fuel (entryFile b) mainContent b) as [[|msg'|] b1];
    cbn [fst snd] in *; [|done..].
  intros [= <- <-]. exists mainContent.
  destruct Hacc as (new & _ & Hset & _).
  split; [done|]. split; [by rewrite (maybeObfuscate_settings b b1)|].
  destruct (Hclosed eq_refl) as (rest & _ & Hcov).
  intros line k Hline Hk. eapply Hcov; [by left|done..].
Qed.

Lemma Bundle_output_witness :
  let w := offline [("/proj/main.lua", "local a = require('a')"); ("/proj/a.lua", "return 1")] in
  let b' := (Bundle more_samples.plainTools w 2 false session).2 in
  exists mainContent,
    ReadFile w (entryFile session) = ok mainContent /\
    text ["-- bundle"; "local a = require('a')"] =
      (let plain := generateBundle more_samples.plainTools b'
                      (maybeObfuscate session mainContent) in
       if false
       then minifyCode more_samples.plainTools
              (removeComments more_samples.plainTools
                 (removeDebugStatements more_samples.plainTools plain))
       else plain) /\
    forall line k,
      line ∈ Split mainContent newline -> k ∈ line_needs line ->
      is_Some (modules b' !! k).
Proof.
  apply (Bundle_output more_samples.plainTools
           (offline [("/proj/main.lua", "local a = require('a')");
                     ("/proj/a.lua", "return 1")]) 2 false session).
  reflexivity.
Defined.

(** X18: [Run] writes the output file only after [Bundle] has succeeded on a
    bundler made for the entry flag with an empty table, and what it
    writes, to the path of the output flag, is the text [Bundle] returned;
    the file is served only under the serve flag, on the port given. *)
Theorem Run_writes_a_finished_bundle (host : Host) (fuel : nat) (flags : Flags)
    (outputFile content : string) (served : option Z) :
  Run host fuel flags = Written outputFile content served ->
  outputFile = output flags /\
  served = (if serve flags then Some (port flags) else None) /\
  WriteFile host outputFile content = None /\
  exists b b',
    Bundle (tools host) (world host) fuel (release flags) b = (Some (ok content), b') /\
    entryFile b = entry flags /\ modules b = ∅ /\ httpModules b = ∅ /\
    obfuscateLevel b = clampLevel (obfuscate flags).
Proof.
  unfold Run.
  destruct (String.eqb (entry flags) EmptyString); [done|].
  assert (forall b0,
            NewBundler (Getwd host) (NewCache host (negb (cmd.noCache flags)))
              (entry flags) (verboseFlag flags) = ok b0 ->
            entryFile b0 = entry flags /\ modules b0 = ∅ /\ httpModules b0 = ∅ /\
            obfuscateLevel b0 = 0%Z) as Hnew.
  { intros b0. unfold NewBundler.
    destruct (String.eqb (Dir (entry flags)) "."), (Getwd host),
      (NewCache host (negb (cmd.noCache flags))); try done; by intros [= <-]. }
  assert (forall level name,
            printLevel (obfuscate flags) = (level, name) ->
            if Z.ltb 0 level then level = clampLevel (obfuscate flags)
            else clampLevel (obfuscate flags) = 0%Z) as Hprint.
  { intros level name. unfold printLevel, clampLevel.
    destruct (Z.ltb_spec 0 (obfuscate flags)) as [Hpos|Hle]; intros [= <- _].
    - destruct (Z.ltb_spec 3 (obfuscate flags)); [done|].
      by destruct (Z.ltb_spec 0 (obfuscate flags)); [|lia].
    - by destruct (Z.ltb_spec 0 (obfuscate flags)); [lia|]. }
  destruct (printLevel (obfuscate flags)) as [level [name|]]; [|done].
  specialize (Hprint level _ eq_refl).
  destruct (NewBundler (Getwd host) (NewCache host (negb (cmd.noCache flags)))
              (entry flags) (verboseFlag flags)) as [b0|err]; [|done].
  destruct (Hnew b0 eq_refl) as (Hentry & Hmod & Hhttp & Hlevel).
  match goal with
  | |- context [Bundle _ _ _ _ ?x] => set (b := x)
  end.
  assert (entryFile b = entry flags /\ modules b = ∅ /\ httpModules b = ∅ /\
          obfuscateLevel b = clampLevel (obfuscate flags)) as Hb.
  { subst b. destruct (Z.ltb 0 level); [done|]. by rewrite Hprint. }
  destruct (Bundle (tools host) (world host) fuel (release flags) b)
    as [[[result|err]|] b'] eqn:Hbundle; try done.
  destruct (WriteFile host (output flags) result) eqn:Hwrite; [done|].
  intros [= <- <- <-]. repeat split; [done|]. by exists b, b'.
Qed.

Lemma Run_writes_a_finished_bundle_witness :
  "bundle.lua" = output defaultFlags /\
  None = (if serve defaultFlags then Some (port defaultFlags) else None) /\
  WriteFile more_samples.host "bundle.lua" (text ["-- bundle"; "print('hello')"]) = None /\
  exists b b',
    Bundle (tools more_samples.host) (world more_samples.host) 1 (release defaultFlags) b
      = (Some (ok (text ["-- bundle"; "print('hello')"])), b') /\
    entryFile b = entry defaultFlags /\ modules b = ∅ /\ httpModules b = ∅ /\
    obfuscateLevel b = clampLevel (obfuscate defaultFlags).
Proof.
  apply (Run_writes_a_finished_bundle more_samples.host 1 defaultFlags).
  reflexivity.
Defined.

(** X19: whatever its outcome, a run keeps every record that was in the table
    as it was, and leaves the base directory, the entry file, the verbose
    flag, the obfuscator and its level and the cache switch alone. *)
Theorem processFile_keeps_what_it_found (w : World) (fuel : nat)
    (filePath content : string) (b : Bundler) :
  let b' := (processFile w fuel filePath content b).2 in
  (forall key value, modules b !! key = Some value -> modules b' !! key = Some value) /\
  same_settings b b'.
Proof.
  cbv zeta.
  destruct (processFile_accounted w fuel filePath content b)
    as (new & _ & Hset & Hsub & _).
  split; [|done]. intros key value Hkey.
  by eapply lookup_weaken.
Qed.

(** X20: in a world whose references all lie in a finite set [K], [Bundle]
    gives its answer, an output or an error, with any fuel above the
    number of references of [K] missing from the table, and the answer
    and the final bundler do not depend on the fuel. *)
Theorem Bundle_terminates (tools : Emitter) (w : World) (K : gset string)
    (releaseMode : bool) (b : Bundler) :
  closed w K -> cache_closed K b ->
  exists r b',
    forall fuel, size (K ∖ dom (modules b)) < fuel ->
      Bundle tools w fuel releaseMode b = (Some r, b').
Proof.
  intros Hw Hc. unfold Bundle.
  destruct (ReadFile w (entryFile b)) as [mainContent|cause] eqn:Hread.
  2: { by eexists _, _. }
  set (n := S (size (K ∖ dom (modules b)))).
  assert ((processFile w n (entryFile b) mainContent b).1 <> OutOfFuel) as Hfin.
  { apply (processFile_enough_fuel w K); [done|done| |unfold pending, n; lia].
    by eapply closed_files. }
  destruct (processFile w n (entryFile b) mainContent b) as [o b1] eqn:Hrun.
  cbn [fst] in Hfin.
  assert (forall fuel, size (K ∖ dom (modules b)) < fuel ->
            processFile w fuel (entryFile b) mainContent b = (o, b1)) as Hany.
  { intros fuel Hfuel. rewrite (processFile_fuel_le w n fuel);
      [done|unfold n; lia|by rewrite Hrun]. }
  destruct o as [|msg|]; [| |done].
  - eexists _, _. intros fuel Hfuel. by rewrite (Hany fuel Hfuel).
  - eexists _, _. intros fuel Hfuel. by rewrite (Hany fuel Hfuel).
Qed.

Lemma Bundle_terminates_witness :
  exists r b',
    forall fuel, size (({[ "a"; "b" ]} : gset string) ∖ dom (modules session)) < fuel ->
      Bundle more_samples.plainTools cycle fuel true session = (Some r, b').
Proof.
  apply (Bundle_terminates more_samples.plainTools cycle {[ "a"; "b" ]} true session).
  - exact cycle_closed.
  - intros url content. by vm_compute.
Defined.
